(** * The request-validation engine of koa-template

    A shallow embedding of [app/util/BaseValidator.js],
    [app/util/helper.js] and [validator/RegisterValidator.js]: JavaScript
    values and their properties, lodash's [_.get], [_.set] and [_.last]
    with the paths they parse, the exceptions the validator throws, the
    [Rule] / [RuleField] classes, member discovery over the prototype
    chain, and [BaseValidator.validate] / [BaseValidator.get]. *)

From Stdlib Require Import Ascii String QArith_base Qreduction Sorted.
From stdpp Require Import base strings pretty gmap list.

Local Open Scope string_scope.
Local Open Scope Z_scope.

(** ** JavaScript values *)

(** A JavaScript number: NaN, an infinity, or a finite number, held as the
    rational it is.  The two zeros are one: they are equal, falsy, and
    print alike. *)
Inductive number := NaN | Infinity (negative : bool) | Num (q : Q).

(** The values that request parameters, rule options and declared members
    hold.  [VRule name message options] is an instance of the class [Rule]
    as [new Rule(name, message, ...options)] builds it; an omitted message is
    [None].  [VBuiltin name] is what reading [name] yields when the value
    read from does not hold it itself and its built-in prototype does: a
    method such as [toString], or the prototype object for [__proto__]; the
    model keeps the name only.  The functions a validator defines are not
    values: a member that is a function is an [MFun] below. *)
#[warnings="-register-all"]
Inductive value :=
| VUndef
| VNull
| VBool (b : bool)
| VNum (n : number)
| VStr (s : string)
| VArr (xs : list value)
| VObj (o : gmap string value)
| VRule (name : string) (message : option string) (options : list value)
| VBuiltin (name : string).

(** [!!v] *)
Definition truthy (v : value) : bool :=
  match v with
  | VUndef | VNull => false
  | VBool b => b
  | VNum NaN => false
  | VNum (Infinity _) => true
  | VNum (Num q) => negb (Qnum q =? 0)
  | VStr s => negb (String.eqb s "")
  | VArr _ | VObj _ | VRule _ _ _ | VBuiltin _ => true
  end.

(** [v == null] *)
Definition nullish (v : value) : bool :=
  match v with
  | VUndef | VNull => true
  | _ => false
  end.

(** [v === 'lit'] for a string literal. *)
Definition is_str (v : value) (lit : string) : bool :=
  match v with
  | VStr s => String.eqb s lit
  | _ => false
  end.

(** [s || fallback] for a string [s]. *)
Definition or_else (s fallback : string) : string :=
  if String.eqb s "" then fallback else s.

(** *** Characters and array indices *)

Definition code (c : ascii) : Z := Z.of_nat (nat_of_ascii c).

Definition is_digit (c : ascii) : bool := (48 <=? code c) && (code c <=? 57).

Definition digit (c : ascii) : Z := code c - 48.

Definition all_digits (s : string) : bool :=
  forallb is_digit (list_ascii_of_string s).

(** [[A-Z]] and [\w] *)
Definition is_upper (c : ascii) : bool := (65 <=? code c) && (code c <=? 90).

Definition is_word (c : ascii) : bool :=
  ((65 <=? code c) && (code c <=? 90)) || ((97 <=? code c) && (code c <=? 122))
  || ((48 <=? code c) && (code c <=? 57)) || (code c =? 95).

(** The number a string of decimal digits denotes. *)
Definition decimal (s : string) : Z :=
  fold_left (fun acc c => 10 * acc + digit c) (list_ascii_of_string s) 0.

(** The number a string denotes when it is the canonical text of a
    non-negative integer: [0], or digits that do not start with [0]. *)
Definition uint_of (s : string) : option Z :=
  match s with
  | "" => None
  | String c rest =>
      if Ascii.eqb c "0"%char then
        if String.eqb rest "" then Some 0 else None
      else if is_digit c && all_digits rest then Some (decimal s)
      else None
  end.

(** An array index: such an integer below [2^32 - 1].  These are the keys
    that name the elements of an array, and the keys [Reflect.ownKeys]
    lists first. *)
Definition array_index (s : string) : option nat :=
  match uint_of s with
  | Some n => if n <? 2 ^ 32 - 1 then Some (Z.to_nat n) else None
  | None => None
  end.

(** lodash's [isIndex(key)]: such an integer below [MAX_SAFE_INTEGER]. *)
Definition isIndex (s : string) : bool :=
  match uint_of s with
  | Some n => n <? 2 ^ 53 - 1
  | None => false
  end.

(** The UTF-16 code units of a string, each as the bytes that encode it
    here (strings are held in UTF-8): a character outside the basic plane
    is two units, its surrogates. *)
Definition unit_bytes (u : Z) : string :=
  String (ascii_of_nat (Z.to_nat (224 + u / 4096)))
    (String (ascii_of_nat (Z.to_nat (128 + (u / 64) mod 64)))
       (String (ascii_of_nat (Z.to_nat (128 + u mod 64))) "")).

Fixpoint utf16 (s : string) : list string :=
  match s with
  | "" => []
  | String a s1 =>
      if code a <? 192 then String a "" :: utf16 s1
      else
        match s1 with
        | "" => [String a ""]
        | String b s2 =>
            if code a <? 224 then String a (String b "") :: utf16 s2
            else
              match s2 with
              | "" => String a "" :: utf16 s1
              | String c s3 =>
                  if code a <? 240 then
                    String a (String b (String c "")) :: utf16 s3
                  else
                    match s3 with
                    | "" => String a "" :: utf16 s1
                    | String d s4 =>
                        let point :=
                          (code a mod 8) * 262144 + (code b mod 64) * 4096
                          + (code c mod 64) * 64 + code d mod 64 in
                        unit_bytes (55296 + (point - 65536) / 1024)
                        :: unit_bytes (56320 + (point - 65536) mod 1024)
                        :: utf16 s4
                    end
              end
        end
  end.

(** The characters (code points) of a string, as [for ... of] visits
    them. *)
Fixpoint code_points (s : string) : list string :=
  match s with
  | "" => []
  | String a s1 =>
      if code a <? 192 then String a "" :: code_points s1
      else
        match s1 with
        | "" => [String a ""]
        | String b s2 =>
            if code a <? 224 then String a (String b "") :: code_points s2
            else
              match s2 with
              | "" => String a "" :: code_points s1
              | String c s3 =>
                  if code a <? 240 then
                    String a (String b (String c "")) :: code_points s3
                  else
                    match s3 with
                    | "" => String a "" :: code_points s1
                    | String d s4 =>
                        String a (String b (String c (String d "")))
                        :: code_points s4
                    end
              end
        end
  end.

(** *** Properties *)

(** The names the built-in prototypes define, as of Node.js 20:
    those of [Object.prototype], which every value below inherits, and
    those that arrays, strings and numbers add. *)
Definition Object_prototype_names : list string :=
  ["constructor"; "__defineGetter__"; "__defineSetter__"; "hasOwnProperty";
   "__lookupGetter__"; "__lookupSetter__"; "isPrototypeOf";
   "propertyIsEnumerable"; "toString"; "valueOf"; "__proto__";
   "toLocaleString"].

Definition Array_prototype_names : list string :=
  ["at"; "concat"; "copyWithin"; "fill"; "find"; "findIndex"; "findLast";
   "findLastIndex"; "lastIndexOf"; "pop"; "push"; "reverse"; "shift";
   "unshift"; "slice"; "sort"; "splice"; "includes"; "indexOf"; "join";
   "keys"; "entries"; "values"; "forEach"; "filter"; "flat"; "flatMap";
   "map"; "every"; "some"; "reduce"; "reduceRight"; "toReversed";
   "toSorted"; "toSpliced"; "with"].

Definition String_prototype_names : list string :=
  ["anchor"; "at"; "big"; "blink"; "bold"; "charAt"; "charCodeAt";
   "codePointAt"; "concat"; "endsWith"; "fontcolor"; "fontsize"; "fixed";
   "includes"; "indexOf"; "isWellFormed"; "italics"; "lastIndexOf"; "link";
   "localeCompare"; "match"; "matchAll"; "normalize"; "padEnd"; "padStart";
   "repeat"; "replace"; "replaceAll"; "search"; "slice"; "small"; "split";
   "strike"; "sub"; "substr"; "substring"; "sup"; "startsWith";
   "toLocaleLowerCase"; "toLocaleUpperCase"; "toLowerCase"; "toUpperCase";
   "toWellFormed"; "trim"; "trimStart"; "trimLeft"; "trimEnd"; "trimRight"].

Definition Number_prototype_names : list string :=
  ["toExponential"; "toFixed"; "toPrecision"].

(** The prototype of [Rule] defines [validate]. *)
Definition Rule_prototype_names : list string := ["validate"].

Definition among (names : list string) (k : string) : bool :=
  existsb (String.eqb k) names.

(** What a value inherits under a name, its own prototype defining
    [names]. *)
Definition inherited (names : list string) (k : string) : value :=
  if among names k || among Object_prototype_names k then VBuiltin k
  else VUndef.

(** The number [n] as a value. *)
Definition number_of (n : nat) : value := VNum (Num (inject_Z (Z.of_nat n))).

(** [v[k]] for a non-nullish [v].  A plain object holds the properties of
    its map, a [Rule] instance the three its constructor assigns, an array
    its elements and its [length], a string its code units and its
    [length]; what the prototypes define is inherited.  The properties of
    a built-in member are not modelled and read as undefined. *)
Definition prop (v : value) (k : string) : value :=
  match v with
  | VUndef | VNull | VBuiltin _ => VUndef
  | VBool _ => inherited [] k
  | VNum _ => inherited Number_prototype_names k
  | VStr s =>
      match array_index k with
      | Some i => from_option VStr VUndef (utf16 s !! i)
      | None =>
          if String.eqb k "length" then number_of (length (utf16 s))
          else inherited String_prototype_names k
      end
  | VArr xs =>
      match array_index k with
      | Some i => default VUndef (xs !! i)
      | None =>
          if String.eqb k "length" then number_of (length xs)
          else inherited Array_prototype_names k
      end
  | VObj o =>
      match o !! k with
      | Some x => x
      | None => inherited [] k
      end
  | VRule name message options =>
      if String.eqb k "name" then VStr name
      else if String.eqb k "message" then from_option VStr VUndef message
      else if String.eqb k "options" then VArr options
      else inherited Rule_prototype_names k
  end.

(** [k in Object(v)] *)
Definition has_property (v : value) (k : string) : bool :=
  match v with
  | VUndef | VNull | VBuiltin _ => false
  | VBool _ => among Object_prototype_names k
  | VNum _ => among Number_prototype_names k || among Object_prototype_names k
  | VStr s =>
      match array_index k with
      | Some i => bool_decide (is_Some (utf16 s !! i))
      | None =>
          String.eqb k "length" || among String_prototype_names k
          || among Object_prototype_names k
      end
  | VArr xs =>
      match array_index k with
      | Some i => bool_decide (is_Some (xs !! i))
      | None =>
          String.eqb k "length" || among Array_prototype_names k
          || among Object_prototype_names k
      end
  | VObj o =>
      bool_decide (is_Some (o !! k)) || among Object_prototype_names k
  | VRule _ _ _ =>
      among ["name"; "message"; "options"] k || among Rule_prototype_names k
      || among Object_prototype_names k
  end.

(** ** lodash: [_.get], [_.set], [_.last] and paths *)

(** [baseGet] for a path that is an array of keys: follow it for as long
    as the current object is not nullish. *)
Fixpoint baseGet (object : value) (path : list string) : value :=
  match path with
  | [] => object
  | key :: path' =>
      if nullish object then VUndef else baseGet (prop object key) path'
  end.

(** [_.get(object, path, defaultValue)] for such a path; an empty path
    yields undefined. *)
Definition lodash_get (object : value) (path : list string)
    (defaultValue : value) : value :=
  let result :=
    match path with
    | [] => VUndef
    | _ => baseGet object path
    end in
  match result with
  | VUndef => defaultValue
  | _ => result
  end.

(** [isObject] *)
Definition isObject (v : value) : bool :=
  match v with
  | VArr _ | VObj _ | VRule _ _ _ | VBuiltin _ => true
  | _ => false
  end.

(** [assignValue(object, key, x)].  On an array an index sets the element,
    extending the array when it lies past its end.  Other properties of
    arrays, and the properties of [Rule] instances and of built-in members,
    are not modelled as assignable: such an assignment leaves the object as
    it is. *)
Definition assignValue (object : value) (key : string) (x : value) : value :=
  match object with
  | VObj o => VObj (<[key := x]> o)
  | VArr xs =>
      match array_index key with
      | Some i =>
          VArr (if (i <? length xs)%nat then <[i := x]> xs
                else xs ++ replicate (i - length xs) VUndef ++ [x])%list
      | None => object
      end
  | _ => object
  end.

(** The keys [baseSet] refuses to go through (lodash 4.17.17 and later). *)
Definition unsafe_key (key : string) : bool :=
  among ["__proto__"; "constructor"; "prototype"] key.

(** [_.set(object, path, x)], returning the updated object ([baseSet]).
    A container that is missing or not an object is replaced by a fresh
    one: an array when the next key is an index, an object otherwise. *)
Fixpoint baseSet (object : value) (path : list string) (x : value) : value :=
  match path with
  | [] => object
  | key :: path' =>
      if unsafe_key key then object
      else
        assignValue object key
          match path' with
          | [] => x
          | next :: _ =>
              let objValue := prop object key in
              baseSet (if isObject objValue then objValue
                       else if isIndex next then VArr [] else VObj ∅)
                path' x
          end
  end.

(** [path.split('.')]; the result is never empty. *)
Fixpoint split_dot (path : string) : list string :=
  match path with
  | "" => [""]
  | String c path' =>
      if Ascii.eqb c "."%char then "" :: split_dot path'
      else match split_dot path' with
           | seg :: segs => String c seg :: segs
           | [] => [String c ""]
           end
  end.

(** [_.last(array)] *)
Definition lodash_last (segs : list string) : value :=
  from_option VStr VUndef (last segs).

(** *** Paths given as strings: [castPath], [isKey], [stringToPath] *)

Definition dot : ascii := "."%char.
Definition open_bracket : ascii := "["%char.
Definition close_bracket : ascii := "]"%char.
Definition backslash : ascii := "092"%char.
Definition double_quote : ascii := "034"%char.
Definition single_quote : ascii := "'"%char.

(** [reIsPlainProp]: word characters only. *)
Definition reIsPlainProp (s : string) : bool :=
  forallb is_word (list_ascii_of_string s).

(** The longest prefix of decimal digits, and the rest. *)
Fixpoint leading_digits (s : string) : string * string :=
  match s with
  | String c s' =>
      if is_digit c then
        let '(digits, rest) := leading_digits s' in (String c digits, rest)
      else ("", s)
  | "" => ("", "")
  end.

(** After an opening bracket: an optional minus sign, digits, an optional
    fraction, and the closing bracket.  The result is the number as written
    and how many characters were read, the closing bracket included. *)
Definition bracket_number (s : string) : option (string * nat) :=
  let '(sign, s1) :=
    match s with
    | String c s' => if Ascii.eqb c "-"%char then ("-", s') else ("", s)
    | "" => ("", s)
    end in
  let '(whole, s2) := leading_digits s1 in
  if String.eqb whole "" then None
  else
    match s2 with
    | String c s3 =>
        if Ascii.eqb c close_bracket then
          Some (sign +:+ whole, S (String.length (sign +:+ whole)))
        else if Ascii.eqb c dot then
          let '(fraction, s4) := leading_digits s3 in
          if String.eqb fraction "" then None
          else
            match s4 with
            | String d _ =>
                if Ascii.eqb d close_bracket then
                  let text := sign +:+ whole +:+ "." +:+ fraction in
                  Some (text, S (String.length text))
                else None
            | "" => None
            end
        else None
    | "" => None
    end.

(** A line terminator, which the [.] of a regular expression does not
    match: a line feed, a carriage return, or the first byte of U+2028 or
    U+2029. *)
Definition line_terminator (c : ascii) (rest : string) : bool :=
  (code c =? 10) || (code c =? 13)
  || match rest with
     | String d (String e _) =>
         (code c =? 226) && (code d =? 128)
         && ((code e =? 168) || (code e =? 169))
     | _ => false
     end.

(** After an opening bracket and a quote: the characters up to the first
    quote that no backslash escapes, which the closing bracket has to
    follow.  The result is the text between the quotes and how many
    characters were read, the closing bracket included. *)
Fixpoint quoted (q : ascii) (s : string) : option (string * nat) :=
  match s with
  | "" => None
  | String c s' =>
      if Ascii.eqb c q then
        match s' with
        | String d _ => if Ascii.eqb d close_bracket then Some ("", 2%nat)
                        else None
        | "" => None
        end
      else if Ascii.eqb c backslash then
        match s' with
        | String d s'' =>
            if line_terminator d s'' then None
            else match quoted q s'' with
                 | Some (text, n) => Some (String c (String d text), S (S n))
                 | None => None
                 end
        | "" => None
        end
      else
        match quoted q s' with
        | Some (text, n) => Some (String c text, S n)
        | None => None
        end
  end.

(** [text.replace(reEscapeChar, '$1')]: a backslash is dropped, and of two
    backslashes one is kept. *)
Fixpoint unescape (s : string) : string :=
  match s with
  | "" => ""
  | String c s' =>
      if Ascii.eqb c backslash then
        match s' with
        | String d s'' =>
            if Ascii.eqb d backslash then String backslash (unescape s'')
            else unescape s'
        | "" => ""
        end
      else String c (unescape s')
  end.

Definition is_quote (c : ascii) : bool :=
  Ascii.eqb c double_quote || Ascii.eqb c single_quote.

(** What follows an opening bracket, when it is a number or a quoted
    string closed by a bracket: the key, and how many characters to skip. *)
Definition bracketed (s : string) : option (string * nat) :=
  match bracket_number s with
  | Some found => Some found
  | None =>
      match s with
      | String q s' =>
          if is_quote q then
            match quoted q s' with
            | Some (text, n) => Some (unescape text, S n)
            | None => None
            end
          else None
      | "" => None
      end
  end.

(** A dot or [[]] at the start. *)
Definition separator (s : string) : option string :=
  match s with
  | String c s' =>
      if Ascii.eqb c dot then Some s'
      else if Ascii.eqb c open_bracket then
        match s' with
        | String d s'' => if Ascii.eqb d close_bracket then Some s'' else None
        | "" => None
        end
      else None
  | "" => None
  end.

(** The place where [rePropName] matches the empty string: before a
    separator that another separator or the end of the string follows. *)
Definition empty_key (s : string) : bool :=
  match separator s with
  | Some rest => String.eqb rest "" || bool_decide (is_Some (separator rest))
  | None => false
  end.

Definition is_special (c : ascii) : bool :=
  Ascii.eqb c dot || Ascii.eqb c open_bracket || Ascii.eqb c close_bracket.

(** The matches of [rePropName], from left to right: a run of characters
    other than dots and brackets, a bracketed number or quoted string, or
    the empty string at an [empty_key] place.  [run] is the run being read
    and [skip] the number of characters a bracketed key still covers. *)
Fixpoint rePropName (s : string) (run : option string) (skip : nat)
    : list string :=
  match s with
  | "" => match run with Some key => [key] | None => [] end
  | String c s' =>
      match skip with
      | S skip' => rePropName s' None skip'
      | O =>
          if is_special c then
            (match run with Some key => [key] | None => [] end
             ++ match (if Ascii.eqb c open_bracket then bracketed s'
                       else None) with
                | Some (key, n) => key :: rePropName s' None n
                | None =>
                    if empty_key s then "" :: rePropName s' None 0
                    else rePropName s' None 0
                end)%list
          else
            rePropName s'
              (Some (match run with
                     | Some key => key +:+ String c ""
                     | None => String c ""
                     end)) 0
      end
  end.

(** [stringToPath(string)] *)
Definition stringToPath (s : string) : list string :=
  ((match s with
    | String c _ => if Ascii.eqb c dot then [""] else []
    | "" => []
    end) ++ rePropName s None 0)%list.

(** After an opening bracket: characters other than brackets, then the
    closing bracket. *)
Fixpoint closes (s : string) : bool :=
  match s with
  | "" => false
  | String c s' =>
      if Ascii.eqb c close_bracket then true
      else if Ascii.eqb c open_bracket then false
      else closes s'
  end.

(** [reIsDeepProp]: somewhere a dot, or a bracket that is closed. *)
Fixpoint reIsDeepProp (s : string) : bool :=
  match s with
  | "" => false
  | String c s' =>
      Ascii.eqb c dot
      || (Ascii.eqb c open_bracket
          && (closes s'
              || match s' with
                 | String q s'' =>
                     is_quote q && bool_decide (is_Some (quoted q s''))
                 | "" => false
                 end))
      || reIsDeepProp s'
  end.

(** [isKey(path, object)] for a path that is a string. *)
Definition isKey (path : string) (object : value) : bool :=
  reIsPlainProp path || negb (reIsDeepProp path) || has_property object path.

(** [castPath(path, object)] for a path that is a string. *)
Definition castPath (path : string) (object : value) : list string :=
  if isKey path object then [path] else stringToPath path.

(** [_.get(object, path, defaultValue)] for a path that is a string. *)
Definition lodash_get_string (object : value) (path : string)
    (defaultValue : value) : value :=
  lodash_get object (castPath path object) defaultValue.

(** [_.get(object, key)] for a key that is a value: a string, or
    undefined, which reads the property of that name. *)
Definition lodash_get_key (object : value) (key : value) : value :=
  match key with
  | VStr k => lodash_get_string object k VUndef
  | _ => lodash_get object ["undefined"] VUndef
  end.

(** ** Exceptions and the log of catalog calls *)

Inductive exn :=
| ParameterException (code : Z) (msg : list string)
| Error (message : string)
| TypeError.

Inductive result (A : Type) :=
| Ok (a : A)
| Throw (e : exn).
Arguments Ok {A} a.
Arguments Throw {A} e.

#[global] Instance result_ret : MRet result := fun A a => Ok a.
#[global] Instance result_bind : MBind result := fun A B f m =>
  match m with
  | Ok a => f a
  | Throw e => Throw e
  end.

(** One invocation [validator[name](arg, ...options)]. *)
Record call := Call {
  call_name : string;
  call_arg : string;
  call_options : list value
}.

(** A computation that may invoke predicates of the catalog and may throw:
    the calls made, in order, and the outcome. *)
Definition M (A : Type) : Type := list call * result A.

#[global] Instance M_ret : MRet M := fun A a => ([], Ok a).
#[global] Instance M_bind : MBind M := fun A B f m =>
  match m with
  | (log, Ok a) => let '(log', r) := f a in (app log log', r)
  | (log, Throw e) => (log, Throw e)
  end.

Definition lift {A} (r : result A) : M A := ([], r).
Definition throw {A} (e : exn) : M A := ([], Throw e).

Definition calls {A} (m : M A) : list call := fst m.
Definition outcome {A} (m : M A) : result A := snd m.

(** ** Validator instances *)

(** What a custom check throws, or rejects with: an [Error] object with
    its [message] (empty when none was given), or any other value, as in
    [throw 'no'], [throw undefined] or [Promise.reject()]. *)
Inductive thrown :=
| ErrorObject (message : string)
| Thrown (v : value).

(** How an awaited call of a custom check settles. *)
Inductive settled :=
| Resolved
| Rejected (error : thrown).

(** What a property of the instance or of one of its prototypes holds: a
    function or a value.  A function member stands for a custom check as
    [_check] calls it, [this[key](this.params)]: it is given by how the call
    settles for each raw parameter bag.  Checks that read other state of
    the instance, or change the instance, are outside this model. *)
Inductive member :=
| MFun (f : value -> settled)
| MVal (v : value).

(** An object: its own properties in the order they were created, each
    with what it holds. *)
Definition jsobj : Type := list (string * member).

(** [Reflect.ownKeys(o)]: the keys that are array indices first, in
    ascending numeric order, then the other keys in the order they were
    created. *)
Fixpoint insert_index (entry : nat * string) (sorted : list (nat * string))
    : list (nat * string) :=
  match sorted with
  | [] => [entry]
  | e :: sorted' =>
      if (fst entry <=? fst e)%nat then entry :: sorted
      else e :: insert_index entry sorted'
  end.

Definition index_entry (key : string) : option (nat * string) :=
  match array_index key with
  | Some i => Some (i, key)
  | None => None
  end.

Definition is_array_index (key : string) : bool :=
  match array_index key with
  | Some _ => true
  | None => false
  end.

Definition index_keys (keys : list string) : list string :=
  map snd (foldr insert_index [] (omap index_entry keys)).

Definition named_keys (keys : list string) : list string :=
  List.filter (fun key => negb (is_array_index key)) keys.

Definition ownKeys (o : jsobj) : list string :=
  (index_keys (map fst o) ++ named_keys (map fst o))%list.

(** An instance of a subclass of [BaseValidator]: the three fields the base
    class declares, the members the subclass constructor adds (under other
    names), and the prototype chain above the instance, which ends with the
    root object, the one whose [__proto__] is null. *)
Record BaseValidator := {
  constructor_name : string;
  params : value;
  paramsChecked : value;
  memberKeys : value;
  declared : jsobj;
  prototypes : list jsobj
}.

(** The instance, with its properties in the order they were created (the
    three fields of the base class, then what the subclass constructor
    adds), followed by its prototypes. *)
Definition chain (this : BaseValidator) : list jsobj :=
  ([("params", MVal (params this));
    ("paramsChecked", MVal (paramsChecked this));
    ("memberKeys", MVal (memberKeys this))] ++ declared this)%list
  :: prototypes this.

Fixpoint own (o : jsobj) (key : string) : option member :=
  match o with
  | [] => None
  | (k, m) :: o' => if String.eqb k key then Some m else own o' key
  end.

(** [obj[key]], looked up along the prototype chain. *)
Fixpoint lookup (c : list jsobj) (key : string) : member :=
  match c with
  | [] => MVal VUndef
  | o :: c' =>
      match own o key with
      | Some m => m
      | None => lookup c' key
      end
  end.

(** [this[key]] *)
Definition member_of (this : BaseValidator) (key : string) : member :=
  lookup (chain this) key.

(** The request context a validator is built from. *)
Record context := {
  request_body : value;
  request_query : value;
  ctx_params : value;
  request_header : value
}.

Definition _assembleAllParams (ctx : context) : value :=
  VObj (<["body" := request_body ctx]>
       (<["query" := request_query ctx]>
       (<["path" := ctx_params ctx]>
       (<["header" := request_header ctx]> ∅)))).

(** [new Sub(ctx)] for a subclass named [name] whose constructor declares
    [fields] and whose prototype chain is [protos]; [_.cloneDeep] is the
    identity on immutable values. *)
Definition construct (name : string) (fields : jsobj) (protos : list jsobj)
    (ctx : context) : BaseValidator :=
  let params := _assembleAllParams ctx in
  {| constructor_name := name;
     params := params;
     paramsChecked := params;
     memberKeys := VUndef;
     declared := fields;
     prototypes := protos |}.

(** ** Results *)

(** A result's message: a string, or for a field the array of its rules'
    messages. *)
Inductive text :=
| MsgStr (s : string)
| MsgArr (items : list string).

(** A message inside a template string; an array is joined with commas. *)
Definition text_to_string (m : text) : string :=
  match m with
  | MsgStr s => s
  | MsgArr items => String.concat "," items
  end.

Record RuleResult := {
  pass : bool;
  message : text
}.

Record RuleFieldResult := {
  base :> RuleResult;
  legalValue : value
}.

(** [new RuleResult(pass, message = '')] *)
Definition newRuleResult (pass : bool) (message : string) : RuleResult :=
  {| pass := pass; message := MsgStr message |}.

(** [new RuleFieldResult(pass, message = '', legalValue = null)] *)
Definition newRuleFieldResult (pass : bool) (message : string)
    (legalValue : value) : RuleFieldResult :=
  {| base := newRuleResult pass message; legalValue := legalValue |}.

(** A field: [new RuleField(rules, target, field)]. *)
Record RuleField := {
  rules : value;
  target : BaseValidator;
  field : string
}.

(** The elements [for (const rule of v)] visits.  A string is visited one
    character at a time; other non-arrays are not iterable. *)
Definition iterate (v : value) : result (list value) :=
  match v with
  | VArr xs => Ok xs
  | VStr s => Ok (map VStr (code_points s))
  | _ => Throw TypeError
  end.

(** [rule.name] *)
Definition name_of (rule : value) : result value :=
  if nullish rule then Throw TypeError else Ok (prop rule "name").

(** [rule.options[0]] *)
Definition first_option (rule : value) : result value :=
  if nullish rule then Throw TypeError
  else match prop rule "options" with
       | VUndef | VNull => Throw TypeError
       | VArr xs => Ok (hd VUndef xs)
       | options => Ok (prop options "0")
       end.

(** The regular expression [/validate([A-Z])\w+/]: somewhere in the key,
    [validate], an upper-case letter, and at least one more word
    character. *)
Fixpoint strip_prefix (p s : string) : option string :=
  match p with
  | "" => Some s
  | String a p' =>
      match s with
      | String b s' => if Ascii.eqb a b then strip_prefix p' s' else None
      | "" => None
      end
  end.

Definition validate_at (s : string) : bool :=
  match strip_prefix "validate" s with
  | Some (String c (String d _)) => is_upper c && is_word d
  | _ => false
  end.

Fixpoint validate_pattern (key : string) : bool :=
  validate_at key ||
  match key with
  | "" => false
  | String _ key' => validate_pattern key'
  end.

(** [v instanceof Rule] *)
Definition is_Rule (v : value) : bool :=
  match v with
  | VRule _ _ _ => true
  | _ => false
  end.

(** ** helper.js: [findMembers] *)

Section findMembers.
(** The object, as its prototype chain, and the three optional
    conditions. *)
Variable obj : list jsobj.
Variable filter : option (string -> result bool).
Variable prefix : option string.
Variable specifiedType : option (member -> bool).

(** An option that is given and truthy. *)
Definition given_prefix : option string :=
  match prefix with
  | Some p => if String.eqb p "" then None else Some p
  | None => None
  end.

Definition _shouldKeep (key : string) : result bool :=
  kept ← match filter with
         | Some f => f key
         | None => Ok false
         end;
  if kept : bool then Ok true
  else if match given_prefix with
          | Some p => bool_decide (is_Some (strip_prefix p key))
          | None => false
          end then Ok true
  else if match specifiedType with
          | Some instance_of => instance_of (lookup obj key)
          | None => false
          end then Ok true
  else Ok false.

(** [keys.filter(key => _shouldKeep(key))] *)
Fixpoint filter_keys (keys : list string) : result (list string) :=
  match keys with
  | [] => Ok []
  | key :: keys' =>
      keep ← _shouldKeep key;
      rest ← filter_keys keys';
      Ok (if keep : bool then key :: rest else rest)
  end.

(** [_find(obj)]: the kept own keys of every object of the chain but the
    one whose [__proto__] is null. *)
Fixpoint _find (c : list jsobj) : result (list string) :=
  match c with
  | [] => Throw TypeError
  | o :: c' =>
      match c' with
      | [] => Ok []
      | _ =>
          keys ← filter_keys (ownKeys o);
          inherited ← _find c';
          Ok (keys ++ inherited)%list
      end
  end.

Definition findMembers : result (list string) :=
  match filter, given_prefix, specifiedType with
  | None, None, None => Ok []
  | _, _, _ => _find obj
  end.
End findMembers.

(** ** Rule sets, as the specification speaks of them *)

(** A rule set is an array whose elements are all [Rule] instances. *)
Definition rule_set (rs : list value) : bool := forallb is_Rule rs.

Definition rule_name (rule : value) : string :=
  match rule with
  | VRule name _ _ => name
  | _ => ""
  end.

Definition rule_options (rule : value) : list value :=
  match rule with
  | VRule _ _ options => options
  | _ => []
  end.

Definition named (name : string) (rule : value) : bool :=
  String.eqb (rule_name rule) name.

(** The rule set contains a rule of that name. *)
Definition mentions (name : string) (rs : list value) : bool :=
  existsb (named name) rs.

(** The declared default: the first option of the first [isOptional] rule,
    undefined when there is none. *)
Definition declared_default (rs : list value) : value :=
  match List.find (named "isOptional") rs with
  | Some rule => hd VUndef (rule_options rule)
  | None => VUndef
  end.

(** The coercion a rule name stands for. *)
Inductive coercion := ToInt | ToFloat | ToBoolean.

Definition coercion_of (rule : value) : option coercion :=
  if named "isInt" rule then Some ToInt
  else if named "isFloat" rule then Some ToFloat
  else if named "isBoolean" rule then Some ToBoolean
  else None.

Definition bears_coercion (rule : value) : bool :=
  bool_decide (is_Some (coercion_of rule)).

(** The four request sources, in the order [_findParam] consults them. *)
Definition sources : list string := ["query"; "body"; "path"; "header"].

(** The raw value a source holds for a field. *)
Definition raw (this : BaseValidator) (source key : string) : value :=
  lodash_get (params this) [source; key] VUndef.

(** The first source that holds a truthy value for the field. *)
Definition first_match (this : BaseValidator) (key : string)
    : option string :=
  List.find (fun source => truthy (raw this source key)) sources.

(** Every own key of every object of a chain but the root, in the order
    [_find] visits them. *)
Fixpoint scanned (c : list jsobj) : list string :=
  match c with
  | [] => []
  | o :: c' =>
      match c' with
      | [] => []
      | _ => (ownKeys o ++ scanned c')%list
      end
  end.

(** A key/value object, or nothing.  A parameter bag is plain when it is
    an object that holds, under the names of the four sources, such
    values, and nothing else: requests carry their sources as key/value
    objects, or leave them out. *)
Definition plain (v : value) : bool :=
  match v with
  | VObj _ | VUndef | VNull => true
  | _ => false
  end.


(** The five containers [_check] writes into: the default bucket and the
    sources. *)
Definition containers : list string := "default" :: sources.

(** A bag whose containers are key/value objects, or missing: a plain bag
    stays such a bag as fields are written into it. *)
Definition tidy_bag (bag : value) : bool :=
  match bag with
  | VObj _ => forallb (fun a => plain (prop bag a)) containers
  | _ => false
  end.

(** The lookup reads a property of a built-in member, of which this model
    knows nothing. *)
Fixpoint reads_builtin (object : value) (path : list string) : bool :=
  match path with
  | [] => false
  | key :: path' =>
      match object with
      | VBuiltin _ => true
      | _ => reads_builtin (prop object key) path'
      end
  end.


(** A key [_.set] writes as this model has it: not one of the three keys
    lodash refuses, and when lodash takes it for an index, an array
    index. *)
Definition settable (key : string) : bool :=
  negb (unsafe_key key) && (negb (isIndex key) || is_array_index key).



(** Two states of one instance: all but [paramsChecked] is the same. *)
Definition same_definition (a b : BaseValidator) : Prop :=
  constructor_name a = constructor_name b
  /\ params a = params b
  /\ memberKeys a = memberKeys b
  /\ declared a = declared b
  /\ prototypes a = prototypes b.

(** The message a rule fails with: [this.message || '参数错误']. *)
Definition rule_message (rule : value) : string :=
  match rule with
  | VRule _ message _ => or_else (default "" message) "参数错误"
  | _ => "参数错误"
  end.

(** ** BaseValidator.js *)

Section Validator.
(** The predicate catalog [validator[name]], absent for a name it does
    not have, and the built-ins [value + ''], [parseInt] and
    [parseFloat]. *)
Variable catalog : string -> option (string -> list value -> bool).
Variable to_string : value -> string.
Variable parseInt parseFloat : value -> value.

(** *** class Rule *)

Definition Rule_validate (name : string) (message : option string)
    (options : list value) (v : value) : M RuleResult :=
  if String.eqb name "isOptional" then mret (newRuleResult true "")
  else match catalog name with
       | None => throw TypeError
       | Some predicate =>
           let arg := to_string v in
           ([Call name arg options],
            Ok (if predicate arg options then newRuleResult true ""
                else newRuleResult false
                       (or_else (default "" message) "参数错误")))
       end.

(** [rule.validate(value)] for an element of a rule array. *)
Definition rule_validate (rule : value) (v : value) : M RuleResult :=
  match rule with
  | VRule name message options => Rule_validate name message options v
  | _ => throw TypeError
  end.

(** *** class RuleField *)

Fixpoint allowEmpty_loop (rs : list value) : result bool :=
  match rs with
  | [] => Ok false
  | rule :: rs' =>
      name ← name_of rule;
      if is_str name "isOptional" then Ok true else allowEmpty_loop rs'
  end.

Definition _allowEmpty (f : RuleField) : result bool :=
  rs ← iterate (rules f); allowEmpty_loop rs.

Fixpoint hasDefault_loop (rs : list value) : result value :=
  match rs with
  | [] => Ok VUndef
  | rule :: rs' =>
      name ← name_of rule;
      if is_str name "isOptional" then first_option rule
      else hasDefault_loop rs'
  end.

Definition _hasDefault (f : RuleField) : result value :=
  rs ← iterate (rules f); hasDefault_loop rs.

Fixpoint convert_loop (rs : list value) (v : value) : result value :=
  match rs with
  | [] => Ok v
  | rule :: rs' =>
      name ← name_of rule;
      if is_str name "isInt" then Ok (parseInt v)
      else if is_str name "isFloat" then Ok (parseFloat v)
      else if is_str name "isBoolean" then Ok (VBool (truthy v))
      else convert_loop rs' v
  end.

Definition _convert (f : RuleField) (v : value) : result value :=
  rs ← iterate (rules f); convert_loop rs v.

(** The loop of [RuleField.validate]: the messages of the rules that do
    not pass, in order. *)
Fixpoint validate_loop (rs : list value) (v : value) : M (list string) :=
  match rs with
  | [] => mret []
  | rule :: rs' =>
      r ← rule_validate rule v;
      errorMessages ← validate_loop rs' v;
      mret (if pass r then errorMessages
            else text_to_string (message r) :: errorMessages)
  end.

Definition RuleField_validate (f : RuleField) (v : value)
    : M RuleFieldResult :=
  if nullish v then
    allowEmpty ← lift (_allowEmpty f);
    defaultValue ← lift (_hasDefault f);
    if allowEmpty : bool then
      if negb (truthy defaultValue) then
        throw (Error (constructor_name (target f) +:+ "校验器中" +:+ field f
                      +:+ "字段没有对可选参数设置默认的参数值！"))
      else mret (newRuleFieldResult true "" defaultValue)
    else mret (newRuleFieldResult false "字段是必填参数" VNull)
  else
    rs ← lift (iterate (rules f));
    errorMessages ← validate_loop rs v;
    match errorMessages with
    | _ :: _ =>
        mret {| base := {| pass := false;
                            message := MsgArr errorMessages |};
                legalValue := VNull |}
    | [] =>
        converted ← lift (_convert f v);
        mret (newRuleFieldResult true "" converted)
    end.

(** *** class BaseValidator *)

Definition _findMembersFilter (this : BaseValidator) (key : string)
    : result bool :=
  if validate_pattern key then Ok true
  else match member_of this key with
       | MVal (VArr elements) =>
           if forallb is_Rule elements then Ok true
           else Throw (Error (constructor_name this +:+ "校验器中" +:+ key
                              +:+ "字段的验证数组必须全部为Rule类型"))
       | _ => Ok false
       end.

(** What [_findParam] returns. *)
Record param := {
  value_of : value;
  path_of : list string
}.

Definition _findParam (this : BaseValidator) (key : string) : param :=
  let value := lodash_get (params this) ["query"; key] VUndef in
  if truthy value then {| value_of := value; path_of := ["query"; key] |}
  else
  let value := lodash_get (params this) ["body"; key] VUndef in
  if truthy value then {| value_of := value; path_of := ["body"; key] |}
  else
  let value := lodash_get (params this) ["path"; key] VUndef in
  if truthy value then {| value_of := value; path_of := ["path"; key] |}
  else
  let value := lodash_get (params this) ["header"; key] VUndef in
  if truthy value then {| value_of := value; path_of := ["header"; key] |}
  else {| value_of := VNull; path_of := [] |}.

(** [_.set(this.paramsChecked, path, x)] *)
Definition set_checked (this : BaseValidator) (path : list string)
    (x : value) : BaseValidator :=
  {| constructor_name := constructor_name this;
     params := params this;
     paramsChecked := baseSet (paramsChecked this) path x;
     memberKeys := memberKeys this;
     declared := declared this;
     prototypes := prototypes this |}.

(** [this.memberKeys = keys] *)
Definition set_memberKeys (this : BaseValidator) (keys : list string)
    : BaseValidator :=
  {| constructor_name := constructor_name this;
     params := params this;
     paramsChecked := paramsChecked this;
     memberKeys := VArr (map VStr keys);
     declared := declared this;
     prototypes := prototypes this |}.

(** [error.message] in the [catch] block of [_check]. *)
Definition message_of (error : thrown) : result value :=
  match error with
  | ErrorObject message => Ok (VStr message)
  | Thrown v => if nullish v then Throw TypeError else Ok (prop v "message")
  end.

(** A value inside a template string. *)
Definition template (v : value) : string :=
  match v with
  | VStr s => s
  | _ => to_string v
  end.

(** The message a failed custom check is reported with:
    [error.message || '参数错误'], as text. *)
Definition failure_text (error : thrown) : string :=
  match message_of error with
  | Ok error_message =>
      if truthy error_message then template error_message else "参数错误"
  | Throw _ => "参数错误"
  end.

(** What [_check] returns. *)
Record checked := {
  check_message : string;
  success : bool
}.

(** [_check(key)]: the instance after the call, and the outcome.  The
    result of a failed custom check holds its message as the text the
    template string makes of it. *)
Definition _check (this : BaseValidator) (key : string)
    : M (BaseValidator * checked) :=
  let isCustomFunc :=
    match member_of this key with
    | MFun _ => true
    | MVal _ => false
    end in
  '(this', result) ←
    match member_of this key with
    | MFun f =>
        match f (params this) with
        | Resolved => mret (this, newRuleResult true "")
        | Rejected error =>
            error_message ← lift (message_of error);
            mret (this,
                  newRuleResult false
                    (if truthy error_message then template error_message
                     else "参数错误"))
        end
    | MVal rules =>
        let param := _findParam this key in
        result ← RuleField_validate
                   {| rules := rules; target := this; field := key |}
                   (value_of param);
        mret (if pass (base result) then
                match path_of param with
                | [] => set_checked this ["default"; key] (legalValue result)
                | path => set_checked this path (legalValue result)
                end
              else this,
              base result)
    end;
  mret (this',
        if negb (pass result) then
          {| check_message :=
               (if isCustomFunc : bool then "" else key +:+ "：")
               +:+ text_to_string (message result);
             success := false |}
        else {| check_message := "ok"; success := true |}).

(** The loop of [validate]. *)
Fixpoint check_loop (this : BaseValidator) (keys : list string)
    (errorMessages : list string) : M (BaseValidator * list string) :=
  match keys with
  | [] => mret (this, errorMessages)
  | memberKey :: keys' =>
      '(this', result) ← _check this memberKey;
      check_loop this' keys'
        (if success result then errorMessages
         else (errorMessages ++ [check_message result])%list)
  end.

(** [validate()]: the instance it resolves with, or what it throws. *)
Definition validate (this : BaseValidator) : M BaseValidator :=
  keys ← lift (findMembers (chain this) (Some (_findMembersFilter this))
                 None None);
  let this := set_memberKeys this keys in
  '(this, errorMessages) ← check_loop this keys [];
  match errorMessages with
  | [] => mret this
  | _ => throw (ParameterException 10001 errorMessages)
  end.

(** [get(path, parsed = true)] *)
Definition get (this : BaseValidator) (path : string) (parsed : bool)
    : result value :=
  if parsed then
    let value := lodash_get_string (paramsChecked this) path VNull in
    if negb (truthy value) then
      if nullish (paramsChecked this) then Throw TypeError
      else Ok (lodash_get_key (prop (paramsChecked this) "default")
                 (lodash_last (split_dot path)))
    else Ok value
  else Ok (lodash_get_string (params this) path VUndef).

(** *** Notions the properties below are stated with *)

(** What a coercion does to a value. *)
Definition coerce (c : coercion) (v : value) : value :=
  match c with
  | ToInt => parseInt v
  | ToFloat => parseFloat v
  | ToBoolean => VBool (truthy v)
  end.

(** The rule passes on the value: it is [isOptional], or its predicate
    is in the catalog and holds of the value's text. *)
Definition rule_passes (v : value) (rule : value) : bool :=
  named "isOptional" rule ||
  match catalog (rule_name rule) with
  | Some predicate => predicate (to_string v) (rule_options rule)
  | None => false
  end.
(** The rule is [isOptional] or names a predicate of the catalog. *)
Definition known (rule : value) : bool :=
  named "isOptional" rule
  || bool_decide (is_Some (catalog (rule_name rule))).

(** What checking a member yields, the instance left aside. *)
Definition verdict (this : BaseValidator) (key : string) : M checked :=
  '(_, result) ← _check this key; mret result.

(** What checking a rule-set member writes into [paramsChecked]: the path
    and the legal value, when the field passes. *)
Definition written (this : BaseValidator) (key : string)
    : option (list string * value) :=
  match member_of this key with
  | MFun _ => None
  | MVal rules =>
      let param := _findParam this key in
      match outcome (RuleField_validate
                       {| rules := rules; target := this; field := key |}
                       (value_of param)) with
      | Ok result =>
          if pass result then
            Some (match path_of param with
                  | [] => ["default"; key]
                  | path => path
                  end, legalValue result)
          else None
      | Throw _ => None
      end
  end.
End Validator.

(** ** A concrete catalog and concrete built-ins

    [Section Validator] leaves the predicate catalog and the built-ins
    open.  The examples below run the validator on this instance of them:
    the predicates [isInt] and [isBoolean] of validator.js as they answer
    when called without options, and [value + ''], [parseInt] and
    [parseFloat] with numbers rounded to double precision. *)
Module Sample.
(** [validator.isInt(str)]: an optional sign, then decimal digits. *)
Definition isInt (s : string) (_ : list value) : bool :=
  let unsigned :=
    match s with
    | String c s' =>
        if Ascii.eqb c "-"%char || Ascii.eqb c "+"%char then s' else s
    | "" => s
    end in
  negb (String.eqb unsigned "") && all_digits unsigned.

(** [validator.isBoolean(str)]: one of [true], [false], [1], [0]. *)
Definition isBoolean (s : string) (_ : list value) : bool :=
  String.eqb s "true" || String.eqb s "false"
  || String.eqb s "1" || String.eqb s "0".

Definition catalog (name : string)
    : option (string -> list value -> bool) :=
  if String.eqb name "isInt" then Some isInt
  else if String.eqb name "isBoolean" then Some isBoolean
  else None.

(** *** Double precision *)

(** [n / d >= base ^ k], for [n >= 0] and [d > 0]. *)
Definition reaches (n d base k : Z) : bool :=
  if 0 <=? k then d * base ^ k <=? n else d <=? n * base ^ (- k).

(** The largest [k] with [2 ^ k <= n / d], for [n > 0]. *)
Definition floor_log2 (n d : Z) : Z :=
  let k := Z.log2 n - Z.log2 d in
  if reaches n d 2 k then k else k - 1.

(** The largest [k] with [10 ^ k <= n / d], for [n > 0]. *)
Definition floor_log10 (n d : Z) : Z :=
  let k := floor_log2 n d * 30103 / 100000 in
  if reaches n d 10 (k + 1) then k + 1
  else if reaches n d 10 k then k else k - 1.

(** [num / den] rounded to the nearest integer, a tie to the even one. *)
Definition round_half_even (num den : Z) : Z :=
  let q := num / den in
  let r := num mod den in
  if 2 * r <? den then q
  else if den <? 2 * r then q + 1
  else if Z.even q then q else q + 1.

(** The double nearest to [n / d], for [n >= 0] and [d > 0]: 53
    significant bits, exponents down to -1074, and an infinity from
    [2 ^ 1024 - 2 ^ 970] on. *)
Definition to_double (negative : bool) (n d : Z) : number :=
  if n =? 0 then Num 0
  else
    let e := Z.max (floor_log2 n d - 52) (- 1074) in
    let m :=
      if 0 <=? e then round_half_even n (d * 2 ^ e)
      else round_half_even (n * 2 ^ (- e)) d in
    if (971 <? e) || ((e =? 971) && (m =? 2 ^ 53)) then Infinity negative
    else
      let signed := if negative then - m else m in
      Num (if 0 <=? e then inject_Z (signed * 2 ^ e)
           else Qred (signed # Z.to_pos (2 ^ (- e)))).

(** *** [Number::toString] *)

(** The value [s * 10 ^ k] as a fraction. *)
Definition decimal_fraction (s k : Z) : Z * Z :=
  if 0 <=? k then (s * 10 ^ k, 1) else (s, 10 ^ (- k)).

(** [s * 10 ^ k] rounds to the double [n / d]. *)
Definition rounds_to (s k n d : Z) : bool :=
  let '(sn, sd) := decimal_fraction s k in
  match to_double false sn sd, to_double false n d with
  | Num a, Num b => Qeq_bool a b
  | Infinity _, Infinity _ => true
  | _, _ => false
  end.

(** The shortest digits that round to the double [n / d], which lies in
    [[10 ^ (p - 1), 10 ^ p)]: with [k] digits the two candidates are the
    neighbours of [n / d]; of two that do, the nearer one, or the even
    one.  The result is the digits and the position of the decimal
    point. *)
Fixpoint shortest (fuel : nat) (k p n d : Z) : Z * Z :=
  let '(num, den) :=
    if 0 <=? k - p then (n * 10 ^ (k - p), d) else (n, d * 10 ^ (p - k)) in
  let low := num / den in
  let r := num mod den in
  let low_ok := rounds_to low (p - k) n d in
  let high_ok := rounds_to (low + 1) (p - k) n d in
  let carry (s : Z) := if s =? 10 ^ k then (10 ^ (k - 1), p + 1) else (s, p) in
  let nearer :=
    if 2 * r <? den then low
    else if den <? 2 * r then low + 1
    else if Z.even low then low else low + 1 in
  if low_ok && high_ok then carry nearer
  else if low_ok then (low, p)
  else if high_ok then carry (low + 1)
  else match fuel with
       | O => (low, p)
       | S fuel' => shortest fuel' (k + 1) p n d
       end.

(** Digits without their trailing zeros. *)
Fixpoint strip_zeros (fuel : nat) (s : Z) : Z :=
  match fuel with
  | O => s
  | S fuel' =>
      if (s mod 10 =? 0) && negb (s =? 0) then strip_zeros fuel' (s / 10)
      else s
  end.

Fixpoint zeros (n : nat) : string :=
  match n with
  | O => ""
  | S n' => "0" +:+ zeros n'
  end.

Fixpoint take_string (n : nat) (s : string) : string :=
  match n, s with
  | S n', String c s' => String c (take_string n' s')
  | _, _ => ""
  end.

Fixpoint drop_string (n : nat) (s : string) : string :=
  match n, s with
  | S n', String _ s' => drop_string n' s'
  | _, _ => s
  end.

(** The text of a positive double whose shortest digits are [digits], the
    decimal point standing after [p] of them. *)
Definition layout (digits : string) (p : Z) : string :=
  let k := Z.of_nat (String.length digits) in
  if (k <=? p) && (p <=? 21) then digits +:+ zeros (Z.to_nat (p - k))
  else if (0 <? p) && (p <=? 21) then
    take_string (Z.to_nat p) digits +:+ "."
    +:+ drop_string (Z.to_nat p) digits
  else if (- 6 <? p) && (p <=? 0) then
    "0." +:+ zeros (Z.to_nat (- p)) +:+ digits
  else
    let exponent :=
      (if 0 <=? p - 1 then "+" else "-") +:+ pretty (Z.abs (p - 1)) in
    if k =? 1 then digits +:+ "e" +:+ exponent
    else take_string 1 digits +:+ "." +:+ drop_string 1 digits
         +:+ "e" +:+ exponent.

Definition number_to_string (x : number) : string :=
  match x with
  | NaN => "NaN"
  | Infinity negative => if negative then "-Infinity" else "Infinity"
  | Num q =>
      let n := Z.abs (Qnum q) in
      let d := Z.pos (Qden q) in
      if n =? 0 then "0"
      else
        let '(s, p) := shortest 17 1 (floor_log10 n d + 1) n d in
        (if Qnum q <? 0 then "-" else "")
        +:+ layout (pretty (strip_zeros 17 s)) p
  end.

(** [value + ''].  Of a built-in member it gives the text of a native
    function of that name. *)
Fixpoint to_string (v : value) : string :=
  match v with
  | VUndef => "undefined"
  | VNull => "null"
  | VBool b => if b then "true" else "false"
  | VNum n => number_to_string n
  | VStr s => s
  | VArr xs =>
      String.concat ","
        (map (fun x => if nullish x then "" else to_string x) xs)
  | VObj _ | VRule _ _ _ => "[object Object]"
  | VBuiltin name => "function " +:+ name +:+ "() { [native code] }"
  end.

(** *** [parseInt] and [parseFloat] *)

(** White space, as [parseInt] and [parseFloat] skip it: the ASCII
    characters, and the bytes of U+00A0, U+1680, U+2000 to U+200A, U+2028,
    U+2029, U+202F, U+205F, U+3000 and U+FEFF. *)
Fixpoint skip_spaces (s : string) : string :=
  match s with
  | String a s1 =>
      if (code a =? 32) || ((9 <=? code a) && (code a <=? 13)) then
        skip_spaces s1
      else
        match s1 with
        | String b s2 =>
            if (code a =? 194) && (code b =? 160) then skip_spaces s2
            else
              match s2 with
              | String c s3 =>
                  if ((code a =? 225) && (code b =? 154) && (code c =? 128))
                     || ((code a =? 226) && (code b =? 128)
                         && (((128 <=? code c) && (code c <=? 138))
                             || (code c =? 168) || (code c =? 169)
                             || (code c =? 175)))
                     || ((code a =? 226) && (code b =? 129) && (code c =? 159))
                     || ((code a =? 227) && (code b =? 128) && (code c =? 128))
                     || ((code a =? 239) && (code b =? 187) && (code c =? 191))
                  then skip_spaces s3
                  else s
              | "" => s
              end
        | "" => s
        end
  | "" => ""
  end.

Definition read_sign (s : string) : bool * string :=
  match s with
  | String c s' =>
      if Ascii.eqb c "-"%char then (true, s')
      else if Ascii.eqb c "+"%char then (false, s')
      else (false, s)
  | "" => (false, s)
  end.

Definition hex_digit (c : ascii) : option Z :=
  if is_digit c then Some (digit c)
  else if (97 <=? code c) && (code c <=? 102) then Some (code c - 87)
  else if (65 <=? code c) && (code c <=? 70) then Some (code c - 55)
  else None.

(** The value of the longest prefix of hexadecimal digits, if any. *)
Fixpoint read_hex (s : string) (acc : option Z) : option Z :=
  match s with
  | String c s' =>
      match hex_digit c with
      | Some h => read_hex s' (Some (16 * default 0 acc + h))
      | None => acc
      end
  | "" => acc
  end.

Definition has_prefix (p s : string) : bool :=
  bool_decide (is_Some (strip_prefix p s)).

(** [parseInt(value)]: after white space and a sign, hexadecimal digits
    when [0x] introduces them, decimal digits otherwise. *)
Definition parseInt (v : value) : value :=
  let '(negative, s) := read_sign (skip_spaces (to_string v)) in
  if has_prefix "0x" s || has_prefix "0X" s then
    match read_hex (drop_string 2 s) None with
    | Some n => VNum (to_double negative n 1)
    | None => VNum NaN
    end
  else
    let '(digits, _) := leading_digits s in
    if String.eqb digits "" then VNum NaN
    else VNum (to_double negative (decimal digits) 1).

(** An exponent: [e] or [E], an optional sign, digits. *)
Definition read_exponent (s : string) : Z :=
  match s with
  | String c s' =>
      if Ascii.eqb c "e"%char || Ascii.eqb c "E"%char then
        let '(negative, s'') := read_sign s' in
        let '(digits, _) := leading_digits s'' in
        if String.eqb digits "" then 0
        else if negative : bool then - decimal digits else decimal digits
      else 0
  | "" => 0
  end.

(** [parseFloat(value)]: after white space and a sign, [Infinity], or
    digits with an optional fraction, or a fraction, and an optional
    exponent. *)
Definition parseFloat (v : value) : value :=
  let '(negative, s) := read_sign (skip_spaces (to_string v)) in
  if has_prefix "Infinity" s then VNum (Infinity negative)
  else
    let '(whole, s1) := leading_digits s in
    let '(fraction, s2) :=
      match s1 with
      | String c s1' =>
          if Ascii.eqb c "."%char then leading_digits s1' else ("", s1)
      | "" => ("", s1)
      end in
    if String.eqb whole "" && String.eqb fraction "" then VNum NaN
    else
      let places := Z.of_nat (String.length fraction) in
      let '(n, d) :=
        decimal_fraction (decimal whole * 10 ^ places + decimal fraction)
          (read_exponent s2 - places) in
      VNum (to_double negative n d).
End Sample.

(** ** Example validators *)

Module Fixture.
(** A method the prototypes hold; only its being a function matters. *)
Definition method : member := MFun (fun _ => Resolved).

(** [BaseValidator.prototype] and the root object above it. *)
Definition BaseValidator_prototype : jsobj :=
  [("constructor", method); ("_initParams", method); ("get", method);
   ("validate", method); ("_check", method);
   ("_assembleAllParams", method); ("_findMembersFilter", method);
   ("_findParam", method)].

Definition Object_prototype : jsobj :=
  map (fun name => (name, method)) Object_prototype_names.

(** A plain object with the given entries. *)
Definition object (entries : list (string * value)) : value :=
  VObj (list_to_map entries).

(** A request whose query string and body hold the given entries. *)
Definition request (query body : list (string * value)) : context :=
  {| request_body := object body;
     request_query := object query;
     ctx_params := object [];
     request_header := object [] |}.

(** [class AgeValidator extends BaseValidator], whose constructor declares
    [this.age = [new Rule('isInt', 'age must be an integer')]]. *)
Definition AgeValidator (ctx : context) : BaseValidator :=
  construct "AgeValidator"
    [("age", MVal (VArr [VRule "isInt" (Some "age must be an integer") []]))]
    [[("constructor", method)]; BaseValidator_prototype; Object_prototype]
    ctx.

(** [this.page = [new Rule('isInt', ''), new Rule('isOptional', '', 1)]] *)
Definition PageValidator (ctx : context) : BaseValidator :=
  construct "PageValidator"
    [("page", MVal (VArr [VRule "isInt" (Some "") [];
                          VRule "isOptional" (Some "") [VNum (Num 1)]]))]
    [[("constructor", method)]; BaseValidator_prototype; Object_prototype]
    ctx.

(** [this.flag = [new Rule('isBoolean'), new Rule('isInt')]] *)
Definition FlagValidator (ctx : context) : BaseValidator :=
  construct "FlagValidator"
    [("flag", MVal (VArr [VRule "isBoolean" None []; VRule "isInt" None []]))]
    [[("constructor", method)]; BaseValidator_prototype; Object_prototype]
    ctx.

(** [this.validateTags = ['not-a-rule']]: an array that holds no [Rule],
    under a name that carries the custom-check prefix. *)
Definition TagsValidator (ctx : context) : BaseValidator :=
  construct "TagsValidator"
    [("validateTags", MVal (VArr [VStr "not-a-rule"]))]
    [[("constructor", method)]; BaseValidator_prototype; Object_prototype]
    ctx.

(** [this.tags = ['not-a-rule']] *)
Definition BadValidator (ctx : context) : BaseValidator :=
  construct "BadValidator"
    [("tags", MVal (VArr [VStr "not-a-rule"]))]
    [[("constructor", method)]; BaseValidator_prototype; Object_prototype]
    ctx.

(** A subclass [Child] of a subclass [Parent] of [BaseValidator]; both
    define a method [validateOwner], which throws in [Child]. *)
Definition ChildValidator (ctx : context) : BaseValidator :=
  construct "Child"
    [("age", MVal (VArr [VRule "isInt" (Some "age must be an integer") []]))]
    [[("constructor", method);
      ("validateOwner",
       MFun (fun _ => Rejected (ErrorObject "not the owner")))];
     [("constructor", method); ("validateOwner", method)];
     BaseValidator_prototype; Object_prototype]
    ctx.

(** The fields of those validators, for a request with no parameters. *)
Definition age_field : RuleField :=
  {| rules := VArr [VRule "isInt" (Some "age must be an integer") []];
     target := AgeValidator (request [] []);
     field := "age" |}.

Definition flag_field : RuleField :=
  {| rules := VArr [VRule "isBoolean" None []; VRule "isInt" None []];
     target := FlagValidator (request [] []);
     field := "flag" |}.

(** An optional page number whose declared default is 0:
    [[new Rule('isOptional', '', 0)]]. *)
Definition offset_field : RuleField :=
  {| rules := VArr [VRule "isOptional" (Some "") [VNum (Num 0)]];
     target := PageValidator (request [] []);
     field := "page" |}.
End Fixture.

(** ** Further notions *)

(** The member is an array whose elements are all [Rule] instances. *)
Definition is_rule_array (m : member) : bool :=
  match m with
  | MVal (VArr elements) => forallb is_Rule elements
  | _ => false
  end.

(** The member is an array that holds an element that is not a [Rule]. *)
Definition is_bad_array (m : member) : bool :=
  match m with
  | MVal (VArr elements) => negb (forallb is_Rule elements)
  | _ => false
  end.

(** A key that discovery keeps: its name carries the custom-check prefix,
    or it holds a rule array. *)
Definition accepted (this : BaseValidator) (key : string) : bool :=
  validate_pattern key || is_rule_array (member_of this key).

(** A key on which discovery throws: no custom-check prefix, and an array
    with a non-[Rule] element. *)
Definition malformed (this : BaseValidator) (key : string) : bool :=
  negb (validate_pattern key) && is_bad_array (member_of this key).

(** What discovery throws on such a key. *)
Definition authoring_error (this : BaseValidator) (key : string) : exn :=
  Error (constructor_name this +:+ "校验器中" +:+ key
         +:+ "字段的验证数组必须全部为Rule类型").

(** A key that [_shouldKeep] keeps, for a filter that does not throw. *)
Definition kept (obj : list jsobj) (filter : option (string -> bool))
    (prefix : option string) (specifiedType : option (member -> bool))
    (key : string) : bool :=
  match filter with
  | Some f => f key
  | None => false
  end
  || match given_prefix prefix with
     | Some p => bool_decide (is_Some (strip_prefix p key))
     | None => false
     end
  || match specifiedType with
     | Some instance_of => instance_of (lookup obj key)
     | None => false
     end.

(** The instance with another checked bag. *)
Definition with_checked (this : BaseValidator) (bag : value)
    : BaseValidator :=
  {| constructor_name := constructor_name this;
     params := params this;
     paramsChecked := bag;
     memberKeys := memberKeys this;
     declared := declared this;
     prototypes := prototypes this |}.

Section Rules.
Variable to_string : value -> string.
Variable parseInt parseFloat : value -> value.

(** The invocation a rule that is not [isOptional] makes on a value. *)
Definition call_of (v : value) (rule : value) : call :=
  {| call_name := rule_name rule;
     call_arg := to_string v;
     call_options := rule_options rule |}.

(** The value as the first coercion-bearing rule of a rule set converts
    it. *)
Definition converted (rs : list value) (v : value) : value :=
  match List.find bears_coercion rs with
  | Some rule =>
      match coercion_of rule with
      | Some c => coerce parseInt parseFloat c v
      | None => v
      end
  | None => v
  end.
End Rules.

(** ** validator/RegisterValidator.js *)

Module RegisterValidator.

Section methods.
(** The message of the [TypeError] the engine throws when a property of
    undefined or null is read; its wording is the engine's. *)
Variable type_error_message : string.




End methods.
End RegisterValidator.

(** ** Further example validators *)

Module Cases.
(** [this.age = [new Rule('isInt', 'age must be an integer')]] and then
    [this.page = [new Rule('isOptional', '', 0)]]. *)
Definition ListValidator (ctx : context) : BaseValidator :=
  construct "ListValidator"
    [("age", MVal (VArr [VRule "isInt" (Some "age must be an integer") []]));
     ("page", MVal (VArr [VRule "isOptional" (Some "") [VNum (Num 0)]]))]
    [[("constructor", Fixture.method)]; Fixture.BaseValidator_prototype;
     Fixture.Object_prototype]
    ctx.

(** [this.b = [new Rule('isInt')]], then the same under the names [2]
    and [1]. *)
Definition NumberedValidator (ctx : context) : BaseValidator :=
  construct "NumberedValidator"
    [("b", MVal (VArr [VRule "isInt" None []]));
     ("2", MVal (VArr [VRule "isInt" None []]));
     ("1", MVal (VArr [VRule "isInt" None []]))]
    [[("constructor", Fixture.method)]; Fixture.BaseValidator_prototype;
     Fixture.Object_prototype]
    ctx.

(** [this.tags = []] *)
Definition EmptyValidator (ctx : context) : BaseValidator :=
  construct "EmptyValidator"
    [("tags", MVal (VArr []))]
    [[("constructor", Fixture.method)]; Fixture.BaseValidator_prototype;
     Fixture.Object_prototype]
    ctx.

(** A validator with an age and a custom check that rejects without a
    reason, as [return Promise.reject()] or [throw undefined] does. *)
Definition TokenValidator (ctx : context) : BaseValidator :=
  construct "TokenValidator"
    [("age", MVal (VArr [VRule "isInt" (Some "age must be an integer") []]))]
    [[("constructor", Fixture.method);
      ("validateToken", MFun (fun _ => Rejected (Thrown VUndef)))];
     Fixture.BaseValidator_prototype; Fixture.Object_prototype]
    ctx.

(** A field whose second rule names a predicate the sample catalog does
    not have. *)
Definition mail_field : RuleField :=
  {| rules := VArr [VRule "isInt" None []; VRule "isEmail" None [];
                    VRule "isBoolean" None []];
     target := Fixture.AgeValidator (Fixture.request [] []);
     field := "age" |}.

(** A field with two [isOptional] rules. *)
Definition twice_optional_field : RuleField :=
  {| rules := VArr [VRule "isInt" None [];
                    VRule "isOptional" None [VNum (Num 5)];
                    VRule "isOptional" None [VNum (Num 7)]];
     target := Fixture.PageValidator (Fixture.request [] []);
     field := "page" |}.


End Cases.

(** ** Properties *)

Section Properties.
Variable catalog : string -> option (string -> list value -> bool).
Variable to_string : value -> string.
Variable parseInt parseFloat : value -> value.

Local Abbreviation field_validate :=
  (RuleField_validate catalog to_string parseInt parseFloat).
Local Abbreviation check := (_check catalog to_string parseInt parseFloat).
Local Abbreviation run := (validate catalog to_string parseInt parseFloat).
Local Abbreviation coerced := (coerce parseInt parseFloat).
Local Abbreviation passes := (rule_passes catalog to_string).

(** *** The loops of [RuleField] on a rule set *)

Lemma name_of_Rule rule :
  is_Rule rule = true -> name_of rule = Ok (VStr (rule_name rule)).
Proof. destruct rule; try discriminate; reflexivity. Qed.

Lemma allowEmpty_rule_set rs :
  rule_set rs = true ->
  allowEmpty_loop rs = Ok (mentions "isOptional" rs).
Proof.
  induction rs as [|rule rs IH]; simpl; [reflexivity|].
  intros [Hr Hrs]%andb_prop.
  rewrite (name_of_Rule _ Hr). simpl. unfold named.
  destruct (String.eqb (rule_name rule) "isOptional"); simpl; auto.
Qed.

Lemma hasDefault_rule_set rs :
  rule_set rs = true ->
  hasDefault_loop rs = Ok (declared_default rs).
Proof.
  unfold declared_default.
  induction rs as [|rule rs IH]; simpl; [reflexivity|].
  intros [Hr Hrs]%andb_prop.
  rewrite (name_of_Rule _ Hr). simpl. unfold named at 1.
  destruct (String.eqb (rule_name rule) "isOptional"); simpl; auto.
  destruct rule; try discriminate; reflexivity.
Qed.

Lemma convert_no_coercion rs v :
  rule_set rs = true ->
  forallb (fun rule => negb (bears_coercion rule)) rs = true ->
  convert_loop parseInt parseFloat rs v = Ok v.
Proof.
  induction rs as [|rule rs IH]; simpl; [reflexivity|].
  intros [Hr Hrs]%andb_prop [Hc Hcs]%andb_prop.
  rewrite (name_of_Rule _ Hr). simpl.
  unfold bears_coercion, coercion_of, named in Hc.
  destruct (String.eqb (rule_name rule) "isInt"); [discriminate|].
  destruct (String.eqb (rule_name rule) "isFloat"); [discriminate|].
  destruct (String.eqb (rule_name rule) "isBoolean"); [discriminate|].
  auto.
Qed.

Lemma convert_first_coercion before rule after c v :
  rule_set (before ++ rule :: after) = true ->
  forallb (fun rule => negb (bears_coercion rule)) before = true ->
  coercion_of rule = Some c ->
  convert_loop parseInt parseFloat (before ++ rule :: after) v
  = Ok (coerced c v).
Proof.
  induction before as [|r before IH]; simpl.
  - intros [Hr _]%andb_prop _ Hc.
    rewrite (name_of_Rule _ Hr). simpl.
    unfold coercion_of, named in Hc.
    destruct (String.eqb (rule_name rule) "isInt"); [by inversion Hc|].
    destruct (String.eqb (rule_name rule) "isFloat"); [by inversion Hc|].
    destruct (String.eqb (rule_name rule) "isBoolean"); [by inversion Hc|].
    discriminate.
  - intros [Hr Hrs]%andb_prop [Hn Hns]%andb_prop Hc.
    rewrite (name_of_Rule _ Hr). simpl.
    unfold bears_coercion, coercion_of, named in Hn.
    destruct (String.eqb (rule_name r) "isInt"); [discriminate|].
    destruct (String.eqb (rule_name r) "isFloat"); [discriminate|].
    destruct (String.eqb (rule_name r) "isBoolean"); [discriminate|].
    auto.
Qed.

(** When every rule passes, the loop of [validate] collects nothing. *)
Lemma validate_loop_all_pass rs v :
  rule_set rs = true ->
  forallb (passes v) rs = true ->
  outcome (validate_loop catalog to_string rs v) = Ok [].
Proof.
  induction rs as [|rule rs IH]; simpl; [reflexivity|].
  intros [Hr Hrs]%andb_prop [Hp Hps]%andb_prop.
  specialize (IH Hrs Hps).
  destruct rule as [| | | | | | |name msg options|]; try discriminate.
  unfold rule_passes, named in Hp. simpl in Hp.
  unfold rule_validate, Rule_validate.
  destruct (validate_loop catalog to_string rs v) as [log r].
  simpl in IH. subst r.
  destruct (String.eqb name "isOptional"); simpl; [reflexivity|].
  simpl in Hp. destruct (catalog name) as [predicate|]; [|discriminate].
  rewrite Hp. reflexivity.
Qed.

(** The absent-value branch of [RuleField.validate] on a rule set. *)
Lemma field_validate_absent f rs v :
  rules f = VArr rs ->
  rule_set rs = true ->
  nullish v = true ->
  field_validate f v =
    if mentions "isOptional" rs then
      if truthy (declared_default rs) then
        ([], Ok (newRuleFieldResult true "" (declared_default rs)))
      else
        ([], Throw (Error (constructor_name (target f) +:+ "校验器中"
                           +:+ field f
                           +:+ "字段没有对可选参数设置默认的参数值！")))
    else ([], Ok (newRuleFieldResult false "字段是必填参数" VNull)).
Proof.
  intros Hf Hrs Hv. unfold RuleField_validate, _allowEmpty, _hasDefault.
  rewrite Hv, Hf. simpl.
  rewrite (allowEmpty_rule_set _ Hrs), (hasDefault_rule_set _ Hrs). simpl.
  destruct (mentions "isOptional" rs); [|reflexivity].
  destruct (truthy (declared_default rs)); reflexivity.
Qed.

(** The present-value branch of [RuleField.validate] when every rule
    passes: the value, converted. *)
Lemma field_validate_passing f rs v :
  rules f = VArr rs ->
  rule_set rs = true ->
  nullish v = false ->
  forallb (passes v) rs = true ->
  outcome (field_validate f v)
  = match convert_loop parseInt parseFloat rs v with
    | Ok converted => Ok (newRuleFieldResult true "" converted)
    | Throw e => Throw e
    end.
Proof.
  intros Hf Hrs Hv Hp. unfold RuleField_validate, _convert.
  rewrite Hv, Hf. simpl.
  pose proof (validate_loop_all_pass rs v Hrs Hp) as Hloop.
  destruct (validate_loop catalog to_string rs v) as [log r].
  simpl in Hloop. subst r. simpl.
  destruct (convert_loop parseInt parseFloat rs v); reflexivity.
Qed.

(** *** Absent values *)

(** C6: for every rule set without an [isOptional] rule, validating an
    absent (null or undefined) raw value fails with the message that the
    field is required, and the call invokes no predicate of the catalog. *)
Theorem C6_absent_required_field_fails f rs v :
  rules f = VArr rs ->
  rule_set rs = true ->
  mentions "isOptional" rs = false ->
  nullish v = true ->
  calls (field_validate f v) = []
  /\ outcome (field_validate f v)
     = Ok (newRuleFieldResult false "字段是必填参数" VNull).
Proof.
  intros Hf Hrs Hopt Hv.
  rewrite (field_validate_absent f rs v Hf Hrs Hv), Hopt.
  split; reflexivity.
Qed.

(** C2, where the code departs from it: for a rule set with an
    [isOptional] rule whose declared default is falsy (the number 0, the
    empty string, false), validating an absent value does not succeed with
    that default: it throws the error for a missing default.  No predicate
    is invoked. *)
Theorem C2_falsy_default_is_thrown f rs v :
  rules f = VArr rs ->
  rule_set rs = true ->
  mentions "isOptional" rs = true ->
  truthy (declared_default rs) = false ->
  nullish v = true ->
  RuleField_validate catalog to_string parseInt parseFloat f v
  = ([], Throw (Error (constructor_name (target f) +:+ "校验器中"
                       +:+ field f
                       +:+ "字段没有对可选参数设置默认的参数值！"))).
Proof.
  intros Hf Hrs Hopt Hdefault Hv.
  by rewrite (field_validate_absent f rs v Hf Hrs Hv), Hopt, Hdefault.
Qed.

(** *** Coercion *)

(** C3, amended: for every present value that passes every rule of a
    field's rule set, the legal value is the raw value coerced once, by the
    first rule in declared order whose name is [isInt], [isFloat] or
    [isBoolean] (integer parsing, floating-point parsing, boolean
    coercion); with none of these names the raw value passes through
    unchanged. *)
Theorem C3_first_coercion_rule_decides f rs v :
  rules f = VArr rs ->
  rule_set rs = true ->
  nullish v = false ->
  forallb (passes v) rs = true ->
  (forall before rule after c,
     rs = (before ++ rule :: after)%list ->
     forallb (fun r => negb (bears_coercion r)) before = true ->
     coercion_of rule = Some c ->
     outcome (field_validate f v)
     = Ok (newRuleFieldResult true "" (coerced c v)))
  /\ (forallb (fun r => negb (bears_coercion r)) rs = true ->
      outcome (field_validate f v) = Ok (newRuleFieldResult true "" v)).
Proof.
  intros Hf Hrs Hv Hp.
  rewrite (field_validate_passing f rs v Hf Hrs Hv Hp).
  split.
  - intros before rule after c -> Hbefore Hc.
    by rewrite (convert_first_coercion before rule after c v Hrs Hbefore Hc).
  - intros Hnone. by rewrite (convert_no_coercion rs v Hrs Hnone).
Qed.

(** *** Member discovery *)

Section discovery.
Variable obj : list jsobj.
Variable f : string -> result bool.

Local Abbreviation keep_keys := (filter_keys obj (Some f) None None).
Local Abbreviation find := (_find obj (Some f) None None).

Lemma shouldKeep_filter_only key :
  _shouldKeep obj (Some f) None None key = f key.
Proof. unfold _shouldKeep. simpl. destruct (f key) as [[]|]; reflexivity. Qed.

(** Where the filter answers, the kept keys are the filtered ones. *)
Lemma filter_keys_answers keep keys :
  (forall key, In key keys -> f key = Ok (keep key)) ->
  keep_keys keys = Ok (List.filter keep keys).
Proof.
  induction keys as [|key keys IH]; simpl; intros Hf; [reflexivity|].
  rewrite shouldKeep_filter_only, (Hf key) by auto. simpl.
  rewrite IH by auto. simpl. destruct (keep key); reflexivity.
Qed.

(** What [filter] throws comes from one of the keys. *)
Lemma filter_keys_throws keys e :
  keep_keys keys = Throw e -> exists key, In key keys /\ f key = Throw e.
Proof.
  induction keys as [|key keys IH]; simpl; [discriminate|].
  rewrite shouldKeep_filter_only.
  destruct (f key) as [b|e'] eqn:Hkey; simpl.
  - destruct (keep_keys keys) as [rest|e'']; simpl; [discriminate|].
    intros [= ->]. destruct IH as (culprit & Hin & Hthrow); eauto.
  - intros [= ->]. eauto.
Qed.

(** A key on which the filter throws makes the filtering throw. *)
Lemma filter_keys_aborts keys key e :
  In key keys -> f key = Throw e -> exists e', keep_keys keys = Throw e'.
Proof.
  induction keys as [|k keys IH]; simpl; [tauto|].
  intros [->|Hin] Hthrow; rewrite shouldKeep_filter_only.
  - rewrite Hthrow. simpl. eauto.
  - destruct (f k); simpl; [|eauto].
    destruct (IH Hin Hthrow) as [e' ->]. simpl. eauto.
Qed.

Lemma find_step o o' c :
  find (o :: o' :: c)
  = (keys ← keep_keys (ownKeys o);
     inherited ← find (o' :: c);
     Ok (keys ++ inherited)%list).
Proof. reflexivity. Qed.

Lemma scanned_step o o' c :
  scanned (o :: o' :: c) = (ownKeys o ++ scanned (o' :: c))%list.
Proof. reflexivity. Qed.

Lemma find_answers keep c :
  c <> [] ->
  (forall key, In key (scanned c) -> f key = Ok (keep key)) ->
  find c = Ok (List.filter keep (scanned c)).
Proof.
  induction c as [|o c IH]; [congruence|]. intros _ Hf.
  destruct c as [|o' c]; [reflexivity|].
  rewrite find_step. rewrite scanned_step in *.
  rewrite (filter_keys_answers keep), IH; cbn [mbind result_bind].
  - by rewrite List.filter_app.
  - discriminate.
  - intros key Hin. apply Hf, in_or_app. auto.
  - intros key Hin. apply Hf, in_or_app. auto.
Qed.

Lemma find_throws c e :
  c <> [] ->
  find c = Throw e -> exists key, In key (scanned c) /\ f key = Throw e.
Proof.
  induction c as [|o c IH]; [congruence|]. intros _.
  destruct c as [|o' c]; [discriminate|].
  rewrite find_step, scanned_step.
  destruct (keep_keys (ownKeys o)) as [keys|e'] eqn:Hkeys;
    cbn [mbind result_bind].
  - destruct (find (o' :: c)) as [inherited|e''];
      cbn [mbind result_bind]; [discriminate|].
    intros [= ->]. destruct IH as (key & Hin & Hthrow); [done..|].
    exists key. split; [apply in_or_app|]; auto.
  - intros [= ->].
    destruct (filter_keys_throws _ _ Hkeys) as (key & Hin & Hthrow).
    exists key. split; [apply in_or_app|]; auto.
Qed.

Lemma find_aborts c key e :
  In key (scanned c) -> f key = Throw e -> exists e', find c = Throw e'.
Proof.
  induction c as [|o c IH]; [simpl; tauto|].
  destruct c as [|o' c]; [simpl; tauto|].
  rewrite find_step, scanned_step.
  intros [Hin|Hin]%in_app_or Hthrow.
  - destruct (filter_keys_aborts _ _ _ Hin Hthrow) as [e' ->].
    cbn [mbind result_bind]. eauto.
  - destruct (keep_keys (ownKeys o)); cbn [mbind result_bind]; [|eauto].
    destruct (IH Hin Hthrow) as [e' ->]. cbn [mbind result_bind]. eauto.
Qed.
End discovery.

Lemma filter_concat {A} (p : A -> bool) (ls : list (list A)) :
  List.filter p (concat ls) = concat (map (List.filter p) ls).
Proof.
  induction ls as [|l ls IH]; [reflexivity|].
  cbn [concat map]. by rewrite List.filter_app, IH.
Qed.

(** The scanned keys are the own keys of every level but the root. *)
Lemma scanned_levels c : scanned c = concat (map ownKeys (removelast c)).
Proof.
  induction c as [|o c IH]; [reflexivity|].
  destruct c as [|o' c]; [reflexivity|].
  rewrite scanned_step, IH. reflexivity.
Qed.

(** *** The order of [Reflect.ownKeys] *)

Lemma insert_index_permutation entry sorted :
  Permutation (insert_index entry sorted) (entry :: sorted).
Proof.
  induction sorted as [|e sorted IH]; [reflexivity|]. cbn [insert_index].
  destruct (fst entry <=? fst e)%nat; [reflexivity|].
  rewrite IH. apply perm_swap.
Qed.

Lemma insert_index_sorted entry sorted :
  StronglySorted (fun a b => (fst a <= fst b)%nat) sorted ->
  StronglySorted (fun a b => (fst a <= fst b)%nat) (insert_index entry sorted).
Proof.
  induction 1 as [|e sorted Hsorted IH Hall]; cbn [insert_index].
  - repeat constructor.
  - destruct (Nat.leb_spec (fst entry) (fst e)) as [Hle|Hlt].
    + constructor; [by constructor|]. constructor; [exact Hle|].
      eapply List.Forall_impl; [|exact Hall]. intros x Hx. cbn in Hx |- *. lia.
    + constructor; [exact IH|].
      rewrite (insert_index_permutation entry sorted).
      constructor; [lia|exact Hall].
Qed.

Lemma omap_index_entry keys :
  map snd (omap index_entry keys) = List.filter is_array_index keys
  /\ Forall (fun e => array_index (snd e) = Some (fst e))
       (omap index_entry keys).
Proof.
  induction keys as [|key keys [IH1 IH2]]; [by split|].
  cbn [omap list_omap List.filter].
  assert (index_entry key = match array_index key with
                            | Some i => Some (i, key)
                            | None => None
                            end) as Hentry by reflexivity.
  assert (is_array_index key = match array_index key with
                               | Some _ => true
                               | None => false
                               end) as Hindex by reflexivity.
  rewrite Hentry, Hindex.
  destruct (array_index key) as [i|] eqn:Hi; [|by split].
  cbn [map snd]. split; [by rewrite IH1|]. by constructor.
Qed.

(** The index of a key that is an array index. *)
Definition index_of (key : string) : nat := default 0%nat (array_index key).

(** [Reflect.ownKeys] lists the keys that are array indices, each once, in
    ascending numeric order, and then the other keys in the order they were
    created. *)
Lemma ownKeys_order o :
  exists indices,
    ownKeys o = (indices ++ named_keys (map fst o))%list
    /\ Permutation indices (List.filter is_array_index (map fst o))
    /\ StronglySorted (fun a b => (index_of a <= index_of b)%nat) indices.
Proof.
  exists (index_keys (map fst o)). split; [reflexivity|].
  unfold index_keys.
  destruct (omap_index_entry (map fst o)) as [Hkeys Hentries].
  set (entries := omap index_entry (map fst o)) in *. clearbody entries.
  rewrite <- Hkeys. clear Hkeys.
  assert (Permutation (foldr insert_index [] entries) entries) as Hperm.
  { clear Hentries. induction entries as [|e entries IH]; [reflexivity|].
    cbn [foldr]. by rewrite insert_index_permutation, IH. }
  assert (StronglySorted (fun a b => (fst a <= fst b)%nat)
            (foldr insert_index [] entries)) as Hsorted.
  { clear. induction entries as [|e entries IH]; [constructor|].
    cbn [foldr]. by apply insert_index_sorted. }
  split; [by apply Permutation_map|].
  assert (Forall (fun e => array_index (snd e) = Some (fst e))
            (foldr insert_index [] entries)) as Hall.
  { by rewrite Hperm. }
  clear Hperm Hentries. induction Hsorted as [|e sorted Hsorted IH Hle].
  - constructor.
  - inversion Hall as [|? ? He Hrest]; subst. cbn [map].
    constructor; [by apply IH|].
    clear IH Hsorted Hall. induction Hle as [|e' sorted He' Hle IH];
      [constructor|].
    inversion Hrest as [|? ? He'' Hrest']; subst. cbn [map].
    constructor; [|by apply IH].
    unfold index_of. by rewrite He, He''.
Qed.

(** C7, amended: member discovery walks the own keys of the instance and
    then of every object of its prototype chain except the root (the
    object with no further ancestor), keeps the keys the filter accepts,
    and returns them level by level: own members before inherited ones.
    Names are not de-duplicated: a key kept at several levels is returned
    once for each of them.  Within a level the order is that of
    [Reflect.ownKeys]: the names that are array indices come first, in
    ascending numeric order, and the other names follow in the order they
    were declared.  The result is a function of the chain and the filter
    alone. *)
Theorem C7_discovery_order_without_deduplication f keep o c :
  (forall key, In key (scanned (o :: c)) -> f key = Ok (keep key)) ->
  findMembers (o :: c) (Some f) None None
  = Ok (concat (map (fun level => List.filter keep (ownKeys level))
                  (removelast (o :: c))))
  /\ forall level,
       exists indices,
         ownKeys level = (indices ++ named_keys (map fst level))%list
         /\ Permutation indices (List.filter is_array_index (map fst level))
         /\ StronglySorted (fun a b => (index_of a <= index_of b)%nat)
              indices.
Proof.
  intros Hf. split; [|apply ownKeys_order].
  unfold findMembers. simpl given_prefix. cbv iota.
  rewrite (find_answers (o :: c) f keep (o :: c)) by (by try discriminate).
  by rewrite scanned_levels, filter_concat, map_map.
Qed.

(** The filter of [BaseValidator] throws exactly on an array that holds a
    non-[Rule] under a name without the custom-check prefix. *)
Lemma findMembersFilter_throws this key e :
  _findMembersFilter this key = Throw e ->
  validate_pattern key = false
  /\ exists bad, member_of this key = MVal (VArr bad)
       /\ forallb is_Rule bad = false
       /\ e = Error (constructor_name this +:+ "校验器中" +:+ key
                     +:+ "字段的验证数组必须全部为Rule类型").
Proof.
  unfold _findMembersFilter.
  destruct (validate_pattern key); [discriminate|].
  destruct (member_of this key) as [|[]]; try discriminate.
  destruct (forallb is_Rule xs) eqn:Hxs; [discriminate|].
  intros [= <-]. eauto.
Qed.

Lemma findMembersFilter_malformed this key bad :
  validate_pattern key = false ->
  member_of this key = MVal (VArr bad) ->
  forallb is_Rule bad = false ->
  _findMembersFilter this key
  = Throw (Error (constructor_name this +:+ "校验器中" +:+ key
                  +:+ "字段的验证数组必须全部为Rule类型")).
Proof. unfold _findMembersFilter. by intros -> -> ->. Qed.

(** What discovery throws, [validate] throws, before any check. *)
Lemma validate_discovery_throws this e :
  findMembers (chain this) (Some (_findMembersFilter this)) None None
  = Throw e ->
  run this = ([], Throw e).
Proof. unfold validate. by intros ->. Qed.

(** *** Custom checks *)

(** [_check] on a member that is a function: no predicate is invoked; a
    failure becomes a message unless reading its [message] throws. *)
Lemma check_custom this key f :
  member_of this key = MFun f ->
  check this key
  = match f (params this) with
    | Resolved => ([], Ok (this, {| check_message := "ok"; success := true |}))
    | Rejected error =>
        match message_of error with
        | Ok _ =>
            ([], Ok (this, {| check_message := failure_text to_string error;
                              success := false |}))
        | Throw e => ([], Throw e)
        end
    end.
Proof.
  intros Hmember. unfold _check, failure_text. rewrite Hmember.
  destruct (f (params this)) as [|error]; [reflexivity|].
  by destruct (message_of error).
Qed.

(** *** lodash on parameter bags *)

Lemma prop_object (o : gmap string value) k :
  prop (VObj o) k = match o !! k with
                    | Some x => x
                    | None => inherited [] k
                    end.
Proof. reflexivity. Qed.

Lemma container_names a :
  In a containers ->
  unsafe_key a = false /\ among Object_prototype_names a = false.
Proof. intros [<-|[<-|[<-|[<-|[<-|[]]]]]]; by split. Qed.

(** A bag whose containers are key/value objects or missing. *)
Definition tidy (bag : value) : Prop :=
  exists o, bag = VObj o
            /\ forall a, In a containers -> plain (prop bag a) = true.

Lemma tidy_bag_spec bag : tidy_bag bag = true <-> tidy bag.
Proof.
  split.
  - destruct bag as [| | | | | |o| |]; try discriminate. cbn [tidy_bag].
    intros Hall. exists o. split; [reflexivity|]. intros a Ha.
    by apply (proj1 (forallb_forall _ _) Hall).
  - intros (o & -> & Hplain). cbn [tidy_bag]. by apply forallb_forall.
Qed.



(** The container a write of two keys goes through. *)
Definition container_for (bag : value) (a b : string) : value :=
  if isObject (prop bag a) then prop bag a
  else if isIndex b then VArr [] else VObj ∅.

Lemma baseSet_two (o : gmap string value) a b x :
  unsafe_key a = false ->
  baseSet (VObj o) [a; b] x
  = VObj (<[a := if unsafe_key b then container_for (VObj o) a b
                 else assignValue (container_for (VObj o) a b) b x]> o).
Proof.
  intros Ha. cbn [baseSet]. rewrite Ha. unfold container_for.
  by destruct (unsafe_key b).
Qed.

Lemma baseSet_tidy_shape bag a b :
  tidy bag -> In a containers ->
  exists o, bag = VObj o
    /\ ((exists inner, prop bag a = VObj inner
                       /\ container_for bag a b = VObj inner)
        \/ (nullish (prop bag a) = true
            /\ container_for bag a b
               = if isIndex b then VArr [] else VObj ∅)).
Proof.
  intros (o & -> & Hplain) Ha. exists o. split; [reflexivity|].
  specialize (Hplain a Ha). unfold container_for.
  destruct (prop (VObj o) a) as [| | | | | |inner| |]; try discriminate;
    eauto.
Qed.

Lemma prop_assignValue_same container b x :
  settable b = true ->
  container = VObj ∅ \/ (exists inner, container = VObj inner)
  \/ (container = VArr [] /\ isIndex b = true) ->
  prop (assignValue container b x) b = x.
Proof.
  intros Hb Hcontainer.
  assert (forall inner : gmap string value,
            prop (assignValue (VObj inner) b x) b = x) as Hobject.
  { intros inner. cbn [assignValue]. rewrite prop_object.
    by rewrite lookup_insert_eq. }
  destruct Hcontainer as [->|[[inner ->]|[-> Hindex]]]; [done..|].
  unfold settable in Hb. rewrite Hindex in Hb. cbn [negb orb] in Hb.
  apply andb_prop in Hb as [_ Hb]. unfold is_array_index in Hb.
  destruct (array_index b) as [i|] eqn:Hi; [|discriminate].
  unfold assignValue, prop. rewrite Hi. cbn [length app].
  destruct (Nat.ltb_spec i 0) as [Hlt|_]; [lia|].
  rewrite Nat.sub_0_r.
  rewrite lookup_app_r by (by rewrite length_replicate).
  by rewrite length_replicate, Nat.sub_diag.
Qed.

(** What was written at [[a; b]] is read there. *)
Lemma baseGet_baseSet_same bag a b x :
  tidy bag -> In a containers -> settable b = true ->
  baseGet (baseSet bag [a; b] x) [a; b] = x.
Proof.
  intros Htidy Ha Hb.
  destruct (baseSet_tidy_shape bag a b Htidy Ha) as (o & -> & Hshape).
  destruct (container_names a Ha) as [Hsafe _].
  assert (unsafe_key b = false) as Hsafe_b.
  { unfold settable in Hb. by destruct (unsafe_key b). }
  rewrite baseSet_two, Hsafe_b by done.
  cbn [baseGet nullish]. rewrite prop_object, lookup_insert_eq.
  assert (prop (assignValue (container_for (VObj o) a b) b x) b = x) as Hcell.
  { apply prop_assignValue_same; [done|].
    destruct Hshape as [(inner & _ & ->)|[_ ->]]; [eauto|].
    destruct (isIndex b) eqn:Hindex; eauto. }
  by destruct (assignValue (container_for (VObj o) a b) b x).
Qed.

(** Another container reads as before. *)
Lemma prop_baseSet_other (o : gmap string value) a b k x :
  a <> k -> prop (baseSet (VObj o) [a; b] x) k = prop (VObj o) k.
Proof.
  intros Hne. cbn [baseSet]. destruct (unsafe_key a); [reflexivity|].
  cbn [assignValue]. by rewrite !prop_object, lookup_insert_ne.
Qed.

Lemma baseGet_baseSet_other_container (o : gmap string value) a b c d x :
  a <> c ->
  baseGet (baseSet (VObj o) [a; b] x) [c; d] = baseGet (VObj o) [c; d].
Proof.
  intros Hne. cbn [baseGet].
  rewrite (prop_baseSet_other o a b c x Hne).
  assert (nullish (baseSet (VObj o) [a; b] x) = false) as ->; [|done].
  cbn [baseSet]. by destruct (unsafe_key a).
Qed.

(** In a container that was an object, another name reads as before. *)
Lemma baseGet_baseSet_other_name (o inner : gmap string value) a b d x :
  unsafe_key a = false ->
  prop (VObj o) a = VObj inner ->
  b <> d ->
  baseGet (baseSet (VObj o) [a; b] x) [a; d] = baseGet (VObj o) [a; d].
Proof.
  intros Ha Hinner Hne. rewrite baseSet_two by done.
  unfold container_for. rewrite Hinner. cbn [isObject baseGet nullish].
  rewrite prop_object, lookup_insert_eq, Hinner.
  destruct (unsafe_key b); [reflexivity|].
  cbn [assignValue nullish]. by rewrite !prop_object, lookup_insert_ne.
Qed.


(** *** [_findParam] and the write-back of [_check] *)

Lemma findParam_first_match this key :
  _findParam this key
  = match first_match this key with
    | Some source =>
        {| value_of := raw this source key; path_of := [source; key] |}
    | None => {| value_of := VNull; path_of := [] |}
    end.
Proof.
  unfold _findParam, first_match, sources, raw. simpl.
  repeat match goal with
         | |- context [truthy ?v] => destruct (truthy v); try reflexivity
         end.
Qed.

(** The path [_check] writes the legal value of a passing field to. *)
Lemma target_first_match this key :
  match path_of (_findParam this key) with
  | [] => ["default"; key]
  | path => path
  end
  = match first_match this key with
    | Some source => [source; key]
    | None => ["default"; key]
    end.
Proof.
  rewrite findParam_first_match. by destruct (first_match this key).
Qed.

(** [_check] on a member that is not a function. *)
Lemma check_field this key rules_ :
  member_of this key = MVal rules_ ->
  check this key
  = match field_validate {| rules := rules_; target := this; field := key |}
            (value_of (_findParam this key)) with
    | (log, Ok result) =>
        (log,
         Ok (if pass result then
               set_checked this
                 match first_match this key with
                 | Some source => [source; key]
                 | None => ["default"; key]
                 end (legalValue result)
             else this,
             if pass result then {| check_message := "ok"; success := true |}
             else {| check_message :=
                       (key +:+ "：") +:+ text_to_string (message result);
                     success := false |}))
    | (log, Throw e) => (log, Throw e)
    end.
Proof.
  intros Hmember. unfold _check. rewrite Hmember.
  rewrite <- target_first_match.
  destruct (field_validate _ _) as [log [result|e]]; [|reflexivity].
  cbn [mbind M_bind mret M_ret]. rewrite !app_nil_r.
  destruct (pass result) eqn:Hpass; cbn [negb].
  - by destruct (path_of (_findParam this key)).
  - reflexivity.
Qed.

Lemma lodash_get_baseGet object key path :
  lodash_get object (key :: path) VUndef = baseGet object (key :: path).
Proof. unfold lodash_get. by destruct (baseGet object (key :: path)). Qed.

Lemma first_match_truthy this key source :
  first_match this key = Some source ->
  In source sources /\ truthy (raw this source key) = true.
Proof. apply find_some. Qed.

(** C4: the raw value of a rule-set member is that of the first of the
    sources query, body, path, header, in this order, that holds a truthy
    value under the member's name, whatever the later sources hold.  When
    the field passes, [_check] succeeds and writes its legal value into
    [paramsChecked] at the path the value was found at, or at
    [default.<name>] when no source held one: the value is read back there,
    the other containers read as before, and so do the other names of a
    container that was there.  When the field fails, nothing is written. *)
Theorem C4_first_source_and_write_back this key rules_ :
  member_of this key = MVal rules_ ->
  let container :=
    match first_match this key with
    | Some source => source
    | None => "default"
    end in
  _findParam this key
  = match first_match this key with
    | Some source =>
        {| value_of := raw this source key; path_of := [source; key] |}
    | None => {| value_of := VNull; path_of := [] |}
    end
  /\ (forall log fieldResult,
        RuleField_validate catalog to_string parseInt parseFloat
          {| rules := rules_; target := this; field := key |}
          (value_of (_findParam this key)) = (log, Ok fieldResult) ->
        if pass fieldResult then
          let this' := set_checked this [container; key]
                         (legalValue fieldResult) in
          check this key
          = (log, Ok (this', {| check_message := "ok"; success := true |}))
          /\ (tidy_bag (paramsChecked this) = true ->
              settable key = true ->
              lodash_get (paramsChecked this') [container; key] VUndef
              = legalValue fieldResult)
          /\ (forall o other name,
                paramsChecked this = VObj o ->
                other <> container ->
                lodash_get (paramsChecked this') [other; name] VUndef
                = lodash_get (paramsChecked this) [other; name] VUndef)
          /\ (forall o inner name,
                paramsChecked this = VObj o ->
                prop (paramsChecked this) container = VObj inner ->
                name <> key ->
                lodash_get (paramsChecked this') [container; name] VUndef
                = lodash_get (paramsChecked this) [container; name] VUndef)
        else
          check this key
          = (log, Ok (this,
                      {| check_message :=
                           (key +:+ "：") +:+ text_to_string (message fieldResult);
                         success := false |}))).
Proof.
  intros Hmember container. split; [apply findParam_first_match|].
  intros log fieldResult Hfield.
  rewrite (check_field this key rules_ Hmember), Hfield.
  assert (In container containers) as Hcontainer.
  { subst container. destruct (first_match this key) as [source|] eqn:Hfirst.
    - right. by apply first_match_truthy in Hfirst as [? _].
    - by left. }
  assert (match first_match this key with
          | Some source => [source; key]
          | None => ["default"; key]
          end = [container; key]) as ->.
  { subst container. by destruct (first_match this key). }
  destruct (pass fieldResult); [|reflexivity].
  cbn zeta. split; [reflexivity|]. cbn [paramsChecked set_checked].
  destruct (container_names container Hcontainer) as [Hsafe _].
  split; [|split].
  - intros Htidy%tidy_bag_spec Hkey.
    by rewrite lodash_get_baseGet, baseGet_baseSet_same.
  - intros o other name -> Hother.
    by rewrite !lodash_get_baseGet, baseGet_baseSet_other_container.
  - intros o inner name Ho Hinner Hname. rewrite Ho in Hinner |- *.
    by rewrite !lodash_get_baseGet,
      (baseGet_baseSet_other_name o inner container key name).
Qed.

(** *** Falsy raw values *)

Lemma rule_validate_calls rule v c :
  In c (calls (rule_validate catalog to_string rule v)) ->
  call_arg c = to_string v.
Proof.
  destruct rule as [| | | | | | |name msg options|]; try (simpl; tauto).
  unfold rule_validate, Rule_validate.
  destruct (String.eqb name "isOptional"); [simpl; tauto|].
  destruct (catalog name); simpl; [|tauto].
  by intros [<-|[]].
Qed.

Lemma validate_loop_calls rs v c :
  In c (calls (validate_loop catalog to_string rs v)) ->
  call_arg c = to_string v.
Proof.
  induction rs as [|rule rs IH]; [simpl; tauto|].
  change (validate_loop catalog to_string (rule :: rs) v)
    with (r ← rule_validate catalog to_string rule v;
          errorMessages ← validate_loop catalog to_string rs v;
          mret (if pass r then errorMessages
                else text_to_string (message r) :: errorMessages)).
  pose proof (rule_validate_calls rule v c) as Hrule.
  destruct (rule_validate catalog to_string rule v) as [log [r|e]];
    [|exact Hrule].
  destruct (validate_loop catalog to_string rs v) as [log' [msgs|e]];
    cbn [mbind M_bind mret M_ret calls fst] in *;
    rewrite ?app_nil_r; intros [Hin|Hin]%in_app_or; auto.
Qed.

Lemma field_validate_calls f v c :
  In c (calls (field_validate f v)) ->
  nullish v = false /\ call_arg c = to_string v.
Proof.
  unfold RuleField_validate. destruct (nullish v).
  - destruct (_allowEmpty f) as [[]|]; destruct (_hasDefault f) as [d|];
      try (simpl; tauto).
    simpl. destruct (truthy d); simpl; tauto.
  - destruct (iterate (rules f)) as [rs|]; [|simpl; tauto].
    pose proof (validate_loop_calls rs v c) as Hloop.
    cbn [lift mbind M_bind].
    destruct (validate_loop catalog to_string rs v) as [log [msgs|e]];
      cbn [calls fst app] in *; [|auto].
    destruct msgs; [destruct (_convert _ _ _ _)|];
      cbn [lift mbind M_bind mret M_ret calls fst]; rewrite ?app_nil_r; auto.
Qed.

(** The lookup sees a source only through the truthy value it holds. *)
Lemma findParam_agree this other key :
  (forall source, In source sources ->
     raw other source key = raw this source key
     \/ (truthy (raw other source key) = false
         /\ truthy (raw this source key) = false)) ->
  _findParam other key = _findParam this key.
Proof.
  intros Hagree. unfold _findParam.
  fold (raw this "query" key) (raw this "body" key) (raw this "path" key)
       (raw this "header" key) (raw other "query" key)
       (raw other "body" key) (raw other "path" key)
       (raw other "header" key).
  destruct (Hagree "query") as [->|[-> ->]]; [simpl; tauto| |];
  destruct (Hagree "body") as [->|[-> ->]]; try (simpl; tauto);
  destruct (Hagree "path") as [->|[-> ->]]; try (simpl; tauto);
  destruct (Hagree "header") as [->|[-> ->]]; try (simpl; tauto);
  reflexivity.
Qed.

(** C10, amended: a falsy raw value (0, the empty string, false) is skipped
    by the lookup exactly as if its source did not hold the field, so a
    later source that holds a truthy value still supplies it.  When no
    source holds a truthy value for a rule-set field, the lookup returns
    what it returns for an absent field, no predicate is invoked, and the
    field fails as required when it has no [isOptional] rule, or resolves
    to the declared default when it has one and that default is truthy.
    In every case a value passed to a rule is a truthy one. *)
Theorem C10_falsy_values_are_skipped this key rs :
  member_of this key = MVal (VArr rs) ->
  rule_set rs = true ->
  (forall other,
     (forall source, In source sources ->
        raw other source key = raw this source key
        \/ (truthy (raw other source key) = false
            /\ truthy (raw this source key) = false)) ->
     _findParam other key = _findParam this key)
  /\ (first_match this key = None ->
      _findParam this key = {| value_of := VNull; path_of := [] |}
      /\ calls (check this key) = []
      /\ (mentions "isOptional" rs = false ->
          outcome (check this key)
          = Ok (this, {| check_message := (key +:+ "：") +:+ "字段是必填参数";
                         success := false |}))
      /\ (mentions "isOptional" rs = true ->
          truthy (declared_default rs) = true ->
          outcome (check this key)
          = Ok (set_checked this ["default"; key] (declared_default rs),
                {| check_message := "ok"; success := true |})))
  /\ (forall c, In c (calls (check this key)) ->
      exists source,
        first_match this key = Some source
        /\ truthy (raw this source key) = true
        /\ call_arg c = to_string (raw this source key)).
Proof.
  intros Hmember Hrs. split; [|split].
  - intros other. apply findParam_agree.
  - intros Hnone.
    assert (_findParam this key = {| value_of := VNull; path_of := [] |})
      as Hparam by (by rewrite findParam_first_match, Hnone).
    split; [exact Hparam|].
    rewrite (check_field this key _ Hmember), Hparam, Hnone.
    cbn [value_of].
    rewrite (field_validate_absent
               {| rules := VArr rs; target := this; field := key |}
               rs VNull eq_refl Hrs eq_refl).
    cbn [target field constructor_name].
    destruct (mentions "isOptional" rs).
    + destruct (truthy (declared_default rs)); repeat split; try done.
    + repeat split; try done.
  - intros c. rewrite (check_field this key _ Hmember).
    intros Hin.
    assert (In c (calls (field_validate
                           {| rules := VArr rs; target := this; field := key |}
                           (value_of (_findParam this key))))) as Hcall.
    { by destruct (field_validate _ _) as [log [result|e]]. }
    apply field_validate_calls in Hcall as [Hpresent Harg].
    rewrite findParam_first_match in Hpresent, Harg.
    destruct (first_match this key) as [source|] eqn:Hfirst; [|discriminate].
    exists source. split; [reflexivity|].
    split; [by apply first_match_truthy|exact Harg].
Qed.

(** *** The loop of [validate] *)

Lemma same_definition_refl this : same_definition this this.
Proof. by repeat split. Qed.

Lemma same_definition_trans a b c :
  same_definition a b -> same_definition b c -> same_definition a c.
Proof.
  intros (?&?&?&?&?) (?&?&?&?&?). repeat split; congruence.
Qed.

Lemma same_definition_set_checked this path x :
  same_definition this (set_checked this path x).
Proof. by repeat split. Qed.

(** Every member but [paramsChecked] is the same in both states. *)
Lemma member_of_stable a b key :
  same_definition a b ->
  key <> "paramsChecked" ->
  member_of a key = member_of b key.
Proof.
  intros (_ & Hparams & Hkeys & Hdeclared & Hprotos) Hkey.
  unfold member_of, chain. cbn [lookup own app].
  rewrite Hparams, Hkeys, Hdeclared, Hprotos.
  destruct (String.eqb "params" key); [reflexivity|].
  destruct (String.eqb_spec "paramsChecked" key) as [<-|_]; [done|].
  reflexivity.
Qed.

Lemma findParam_stable a b key :
  params a = params b -> _findParam a key = _findParam b key.
Proof. unfold _findParam. by intros ->. Qed.

Lemma field_validate_stable rules_ a b key v :
  constructor_name a = constructor_name b ->
  field_validate {| rules := rules_; target := a; field := key |} v
  = field_validate {| rules := rules_; target := b; field := key |} v.
Proof.
  intros Hname. unfold RuleField_validate, _allowEmpty, _hasDefault, _convert.
  cbn [rules target field]. by rewrite Hname.
Qed.

(** What [_check] does to the instance. *)
Lemma check_state this key log this' result :
  check this key = (log, Ok (this', result)) ->
  this' = match written catalog to_string parseInt parseFloat this key with
          | Some (path, x) => set_checked this path x
          | None => this
          end.
Proof.
  unfold written. destruct (member_of this key) as [f|rules_] eqn:Hmember.
  - rewrite (check_custom this key f Hmember).
    destruct (f (params this)) as [|error]; [by intros [= _ <- _]|].
    destruct (message_of error); [by intros [= _ <- _]|discriminate].
  - rewrite (check_field this key rules_ Hmember), <- target_first_match.
    destruct (field_validate _ _) as [log' [fieldResult|e]]; [|discriminate].
    cbn [outcome snd]. destruct (pass fieldResult); by intros [= _ <- _].
Qed.

Lemma check_same_definition this key log this' result :
  check this key = (log, Ok (this', result)) -> same_definition this this'.
Proof.
  intros ->%check_state.
  destruct (written _ _ _ _ this key) as [[path x]|];
    [apply same_definition_set_checked|apply same_definition_refl].
Qed.

Lemma verdict_check this key :
  verdict catalog to_string parseInt parseFloat this key
  = match check this key with
    | (log, Ok (_, result)) => (log, Ok result)
    | (log, Throw e) => (log, Throw e)
    end.
Proof.
  unfold verdict. destruct (check this key) as [log [[this' result]|e]];
    cbn [mbind M_bind mret M_ret]; by rewrite ?app_nil_r.
Qed.

(** The verdict on a member, and what is written for it, do not depend on
    what was written before. *)
Lemma verdict_stable a b key :
  same_definition a b ->
  key <> "paramsChecked" ->
  verdict catalog to_string parseInt parseFloat a key
  = verdict catalog to_string parseInt parseFloat b key
  /\ written catalog to_string parseInt parseFloat a key
     = written catalog to_string parseInt parseFloat b key.
Proof.
  intros Hsame Hkey.
  pose proof (member_of_stable a b key Hsame Hkey) as Hmember.
  destruct Hsame as (Hname & Hparams & _).
  rewrite !verdict_check. unfold written. rewrite <- Hmember.
  destruct (member_of a key) as [f|rules_] eqn:Ha.
  - split; [|reflexivity]. symmetry in Hmember.
    rewrite (check_custom a key f Ha), (check_custom b key f Hmember), Hparams.
    destruct (f (params b)) as [|error]; [reflexivity|].
    by destruct (message_of error).
  - symmetry in Hmember.
    rewrite (check_field a key rules_ Ha), (check_field b key rules_ Hmember).
    rewrite (findParam_stable a b key Hparams).
    rewrite (field_validate_stable rules_ a b key _ Hname).
    split; [|reflexivity].
    destruct (field_validate _ _) as [log [fieldResult|e]]; reflexivity.
Qed.

(** One round of the loop. *)
Lemma check_loop_step this key keys errorMessages :
  check_loop catalog to_string parseInt parseFloat this (key :: keys)
    errorMessages
  = ('(this', result) ← check this key;
     check_loop catalog to_string parseInt parseFloat this' keys
       (if success result then errorMessages
        else (errorMessages ++ [check_message result])%list)).
Proof. reflexivity. Qed.

(** The loop, when no check throws: every member is checked, in order,
    and the messages of the failing ones are appended, in order. *)
Lemma check_loop_collects this0 keys : forall this1 errorMessages results,
  same_definition this0 this1 ->
  Forall (fun key => key <> "paramsChecked") keys ->
  Forall2 (fun key result =>
             outcome (verdict catalog to_string parseInt parseFloat this0 key)
             = Ok result) keys results ->
  exists this',
    same_definition this0 this'
    /\ check_loop catalog to_string parseInt parseFloat this1 keys
         errorMessages
       = (concat (map (fun key =>
                         calls (verdict catalog to_string parseInt parseFloat
                                  this0 key)) keys),
          Ok (this',
              (errorMessages
               ++ map check_message
                    (List.filter (fun result => negb (success result))
                       results))%list)).
Proof.
  induction keys as [|key keys IH]; intros this1 errorMessages results Hsame
    Hkeys Hresults.
  - inversion Hresults; subst. exists this1. split; [done|].
    simpl. by rewrite app_nil_r.
  - inversion Hresults as [|? result ? results' Hresult Hrest]; subst.
    inversion Hkeys as [|? ? Hkey Hkeys']; subst.
    destruct (verdict_stable this0 this1 key Hsame Hkey) as [Hverdict _].
    rewrite (verdict_check this1 key) in Hverdict.
    destruct (check this1 key) as [log [[this2 result']|e]] eqn:Hcheck;
      rewrite Hverdict in Hresult; [|discriminate].
    cbn [outcome snd] in Hresult. injection Hresult as ->.
    pose proof (check_same_definition _ _ _ _ _ Hcheck) as Hstep.
    destruct (IH this2
                (if success result then errorMessages
                 else (errorMessages ++ [check_message result])%list)
                results' (same_definition_trans _ _ _ Hsame Hstep)
                Hkeys' Hrest) as (this' & Hsame' & Hloop).
    exists this'. split; [exact Hsame'|].
    rewrite check_loop_step, Hcheck. cbn [mbind M_bind].
    rewrite Hloop. cbn [map concat List.filter]. rewrite Hverdict.
    cbn [calls fst].
    destruct (success result); cbn [negb map]; [reflexivity|].
    by rewrite <- app_assoc.
Qed.

Lemma filter_keys_kept obj f keys kept :
  filter_keys obj (Some f) None None keys = Ok kept ->
  forall key, In key kept -> In key keys /\ f key = Ok true.
Proof.
  revert kept. induction keys as [|k keys IH]; intros kept.
  - intros [= <-] key [].
  - change (filter_keys obj (Some f) None None (k :: keys))
      with (keep ← _shouldKeep obj (Some f) None None k;
            rest ← filter_keys obj (Some f) None None keys;
            Ok (if keep : bool then k :: rest else rest)).
    rewrite shouldKeep_filter_only.
    destruct (f k) as [keep|] eqn:Hk; [|discriminate].
    destruct (filter_keys obj (Some f) None None keys) as [rest|];
      [|discriminate].
    cbn [mbind result_bind]. intros [= <-] key Hin.
    destruct keep.
    + destruct Hin as [<-|Hin]; [split; [by left|exact Hk]|].
      destruct (IH rest eq_refl key Hin). split; [by right|done].
    + destruct (IH rest eq_refl key Hin). split; [by right|done].
Qed.

Lemma find_kept obj f c keys :
  _find obj (Some f) None None c = Ok keys ->
  forall key, In key keys -> In key (scanned c) /\ f key = Ok true.
Proof.
  revert keys. induction c as [|o c IH]; intros keys; [discriminate|].
  destruct c as [|o' c]; [by intros [= <-] key []|].
  rewrite find_step, scanned_step.
  destruct (filter_keys obj (Some f) None None (ownKeys o)) as [own_keys|]
    eqn:Hown; [|discriminate].
  destruct (_find obj (Some f) None None (o' :: c)) as [inherited|];
    [|discriminate].
  cbn [mbind result_bind]. intros [= <-] key [Hin|Hin]%in_app_or.
  - destruct (filter_keys_kept _ _ _ _ Hown key Hin).
    split; [apply in_or_app; by left|done].
  - destruct (IH inherited eq_refl key Hin).
    split; [apply in_or_app; by right|done].
Qed.


Lemma findMembers_find obj f :
  findMembers obj (Some f) None None = _find obj (Some f) None None obj.
Proof. reflexivity. Qed.

(** [paramsChecked] is not discovered unless it is an array. *)
Lemma discovered_not_paramsChecked this keys :
  (forall xs, paramsChecked this <> VArr xs) ->
  findMembers (chain this) (Some (_findMembersFilter this)) None None
  = Ok keys ->
  Forall (fun key => key <> "paramsChecked") keys.
Proof.
  intros Hbag Hkeys. apply List.Forall_forall. intros key Hin ->.
  rewrite findMembers_find in Hkeys.
  destruct (find_kept _ _ _ _ Hkeys _ Hin) as [_ Hkept].
  unfold _findMembersFilter, member_of, chain in Hkept.
  cbn in Hkept. destruct (paramsChecked this); try discriminate.
  by eapply Hbag.
Qed.



(** *** What [validate] leaves in [paramsChecked] *)






(** When the loop ends without a message, every member passed. *)
Lemma check_loop_all_pass this0 keys :
  forall this1 errorMessages log this',
  same_definition this0 this1 ->
  Forall (fun key => key <> "paramsChecked") keys ->
  check_loop catalog to_string parseInt parseFloat this1 keys errorMessages
  = (log, Ok (this', [])) ->
  forall key, In key keys ->
    exists log' result,
      verdict catalog to_string parseInt parseFloat this0 key
      = (log', Ok result)
      /\ success result = true.
Proof.
  assert (forall keys this1 errorMessages log this' errorMessages',
            check_loop catalog to_string parseInt parseFloat this1 keys
              errorMessages = (log, Ok (this', errorMessages')) ->
            errorMessages' = [] -> errorMessages = []) as Hgrows.
  { clear. induction keys as [|key keys IH];
      intros this1 errorMessages log this' errorMessages'.
    - by intros [= _ _ <-].
    - rewrite check_loop_step.
      destruct (check this1 key) as [log1 [[this2 result]|e]];
        [|discriminate].
      cbn [mbind M_bind].
      destruct (check_loop _ _ _ _ this2 keys _) as [log2 outcome2] eqn:Hloop.
      intros [= _ ->] Hnil. specialize (IH _ _ _ _ _ Hloop Hnil).
      destruct (success result); [done|]. by destruct errorMessages. }
  induction keys as [|key keys IH];
    intros this1 errorMessages log this' Hsame Hnames; [by intros _ key []|].
  rewrite check_loop_step.
  destruct (check this1 key) as [log1 [[this2 result]|e]] eqn:Hcheck;
    [|discriminate].
  cbn [mbind M_bind].
  destruct (check_loop _ _ _ _ this2 keys _) as [log2 outcome2] eqn:Hloop.
  intros [= _ ->].
  inversion Hnames as [|? ? Hkey Hnames']; subst.
  pose proof (check_same_definition _ _ _ _ _ Hcheck) as Hstep.
  intros key0 [<-|Hin].
  - destruct (verdict_stable this0 this1 key Hsame Hkey) as [-> _].
    rewrite verdict_check, Hcheck. exists log1, result. split; [done|].
    pose proof (Hgrows _ _ _ _ _ _ Hloop eq_refl) as Hnil.
    destruct (success result); [done|]. by destruct errorMessages.
  - by apply (IH this2 _ _ _ (same_definition_trans _ _ _ Hsame Hstep)
                Hnames' Hloop).
Qed.

(** *** Paths *)







(** *** Paths as lodash reads them *)















(** *** Fields that passed *)





(** *** [get] *)

(** [get(path, true)] on an instance whose checked bag is an object. *)
Lemma get_parsed this path o :
  paramsChecked this = VObj o ->
  get this path true
  = Ok (let value := lodash_get_string (paramsChecked this) path VNull in
        if truthy value then value
        else lodash_get_key (prop (paramsChecked this) "default")
               (lodash_last (split_dot path))).
Proof.
  intros Hbag. unfold get. cbn zeta.
  destruct (truthy (lodash_get_string _ _ _)); [reflexivity|].
  by rewrite Hbag.
Qed.





(** *** The custom-check name pattern *)

Lemma append_cons c s t : String c s +:+ t = String c (s +:+ t).
Proof. reflexivity. Qed.

Lemma append_nil t : "" +:+ t = t.
Proof. reflexivity. Qed.

Lemma strip_prefix_append p r : strip_prefix p (p +:+ r) = Some r.
Proof.
  induction p as [|a p IH]; [reflexivity|].
  rewrite append_cons. cbn [strip_prefix]. by rewrite Ascii.eqb_refl.
Qed.

Lemma strip_prefix_some p s r : strip_prefix p s = Some r -> s = p +:+ r.
Proof.
  revert s. induction p as [|a p IH]; intros s; [by intros [= ->]|].
  destruct s as [|b s]; [discriminate|]. cbn [strip_prefix].
  destruct (Ascii.eqb_spec a b) as [->|]; [|discriminate].
  intros ->%IH. by rewrite append_cons.
Qed.

Lemma validate_pattern_unfold key :
  validate_pattern key
  = validate_at key
    || match key with
       | "" => false
       | String _ key' => validate_pattern key'
       end.
Proof. by destruct key. Qed.

(** The pattern is not anchored: a key matches exactly when it holds,
    anywhere, [validate] followed by an upper-case letter and one more word
    character.  ([validate] followed by a single letter does not match.) *)
Theorem validate_pattern_anywhere key :
  validate_pattern key = true <->
  exists before c d after,
    key = before +:+ "validate" +:+ String c (String d after)
    /\ is_upper c = true /\ is_word d = true.
Proof.
  split.
  - induction key as [|a key IH]; rewrite validate_pattern_unfold;
      intros [Hat|Hrest]%orb_prop.
    + discriminate Hat.
    + discriminate Hrest.
    + unfold validate_at in Hat.
      destruct (strip_prefix "validate" (String a key)) as [[|c [|d after]]|]
        eqn:Hstrip; try discriminate.
      apply andb_prop in Hat as [Hc Hd].
      exists "", c, d, after. rewrite append_nil.
      by apply strip_prefix_some in Hstrip.
    + destruct (IH Hrest) as (before & c & d & after & -> & Hc & Hd).
      exists (String a before), c, d, after. by rewrite append_cons.
  - intros (before & c & d & after & -> & Hc & Hd).
    induction before as [|a before IH]; rewrite validate_pattern_unfold.
    + rewrite append_nil. unfold validate_at.
      by rewrite strip_prefix_append, Hc, Hd.
    + rewrite append_cons, IH. apply orb_true_r.
Qed.

(** *** Discovery on a validator *)

Lemma findMembersFilter_cases this key :
  _findMembersFilter this key
  = if malformed this key then Throw (authoring_error this key)
    else Ok (accepted this key).
Proof.
  unfold _findMembersFilter, malformed, accepted, authoring_error,
    is_bad_array, is_rule_array.
  destruct (validate_pattern key); [reflexivity|].
  destruct (member_of this key) as [|[]]; try reflexivity.
  by destruct (forallb is_Rule xs).
Qed.

Lemma filter_keys_first_malformed obj this keys :
  filter_keys obj (Some (_findMembersFilter this)) None None keys
  = match List.find (malformed this) keys with
    | Some key => Throw (authoring_error this key)
    | None => Ok (List.filter (accepted this) keys)
    end.
Proof.
  induction keys as [|key keys IH]; [reflexivity|].
  change (filter_keys obj (Some (_findMembersFilter this)) None None
            (key :: keys))
    with (keep ← _shouldKeep obj (Some (_findMembersFilter this)) None None
                   key;
          rest ← filter_keys obj (Some (_findMembersFilter this)) None None
                   keys;
          Ok (if keep : bool then key :: rest else rest)).
  rewrite shouldKeep_filter_only, findMembersFilter_cases, IH.
  cbn [List.find List.filter].
  destruct (malformed this key); [reflexivity|]. cbn [mbind result_bind].
  destruct (List.find (malformed this) keys); [reflexivity|].
  cbn [mbind result_bind]. by destruct (accepted this key).
Qed.

Lemma find_over_app {A} (p : A -> bool) (l l' : list A) :
  List.find p (l ++ l')%list
  = match List.find p l with
    | Some x => Some x
    | None => List.find p l'
    end.
Proof.
  induction l as [|x l IH]; [reflexivity|]. cbn [app List.find].
  by destruct (p x).
Qed.

Lemma find_first_malformed obj this c :
  c <> [] ->
  _find obj (Some (_findMembersFilter this)) None None c
  = match List.find (malformed this) (scanned c) with
    | Some key => Throw (authoring_error this key)
    | None => Ok (List.filter (accepted this) (scanned c))
    end.
Proof.
  induction c as [|o c IH]; [done|]. intros _.
  destruct c as [|o' c]; [reflexivity|].
  rewrite find_step, scanned_step, filter_keys_first_malformed, IH by done.
  rewrite find_over_app, List.filter_app.
  destruct (List.find (malformed this) (ownKeys o)); [reflexivity|].
  cbn [mbind result_bind].
  by destruct (List.find (malformed this) (scanned (o' :: c))).
Qed.

(** Member discovery of a validator, in full: it throws on the first key,
    in scan order, that holds an array with a non-[Rule] element under a
    name without the custom-check prefix, naming that key; when there is
    no such key it returns, in scan order, the keys that carry the prefix
    or hold a rule array. *)
Theorem discovery_first_malformed_or_accepted this :
  findMembers (chain this) (Some (_findMembersFilter this)) None None
  = match List.find (malformed this) (scanned (chain this)) with
    | Some key => Throw (authoring_error this key)
    | None => Ok (List.filter (accepted this) (scanned (chain this)))
    end.
Proof. rewrite findMembers_find. by apply find_first_malformed. Qed.

(** *** The three conditions of [findMembers] *)

Lemma shouldKeep_kept obj filter prefix specifiedType key :
  _shouldKeep obj (option_map (fun f key => Ok (f key)) filter) prefix
    specifiedType key
  = Ok (kept obj filter prefix specifiedType key).
Proof.
  unfold _shouldKeep, kept. destruct filter as [f|]; cbn [option_map].
  - cbn [mbind result_bind]. destruct (f key); [reflexivity|].
    cbn [orb].
    destruct (match given_prefix prefix with
              | Some p => bool_decide (is_Some (strip_prefix p key))
              | None => false
              end); [reflexivity|].
    cbn [orb]. by destruct (match specifiedType with
                            | Some instance_of => instance_of (lookup obj key)
                            | None => false
                            end).
  - cbn [mbind result_bind orb].
    destruct (match given_prefix prefix with
              | Some p => bool_decide (is_Some (strip_prefix p key))
              | None => false
              end); [reflexivity|].
    cbn [orb]. by destruct (match specifiedType with
                            | Some instance_of => instance_of (lookup obj key)
                            | None => false
                            end).
Qed.

Lemma filter_keys_kept_all obj filter prefix specifiedType keys :
  filter_keys obj (option_map (fun f key => Ok (f key)) filter) prefix
    specifiedType keys
  = Ok (List.filter (kept obj filter prefix specifiedType) keys).
Proof.
  induction keys as [|key keys IH]; [reflexivity|].
  cbn [filter_keys]. rewrite shouldKeep_kept, IH.
  cbn [mbind result_bind List.filter].
  by destruct (kept obj filter prefix specifiedType key).
Qed.

Lemma find_kept_all obj filter prefix specifiedType c :
  c <> [] ->
  _find obj (option_map (fun f key => Ok (f key)) filter) prefix
    specifiedType c
  = Ok (List.filter (kept obj filter prefix specifiedType) (scanned c)).
Proof.
  induction c as [|o c IH]; [done|]. intros _.
  destruct c as [|o' c]; [reflexivity|].
  change (_find obj (option_map (fun f key => Ok (f key)) filter) prefix
            specifiedType (o :: o' :: c))
    with (keys ← filter_keys obj
                   (option_map (fun f key => Ok (f key)) filter) prefix
                   specifiedType (ownKeys o);
          inherited ← _find obj
                        (option_map (fun f key => Ok (f key)) filter) prefix
                        specifiedType (o' :: c);
          Ok (keys ++ inherited)%list).
  rewrite scanned_step, filter_keys_kept_all, IH by done.
  cbn [mbind result_bind]. by rewrite List.filter_app.
Qed.

(** [findMembers] with any of its three conditions, for a filter that does
    not throw: a scanned key is returned exactly when the filter accepts
    it, or the (non-empty) prefix starts it, or the object holds under it
    an instance of the given type; the conditions add up.  The early
    return for no condition agrees with this: no key is then kept (an
    empty prefix counts as none). *)
Theorem findMembers_any_condition o c filter prefix specifiedType :
  findMembers (o :: c) (option_map (fun f key => Ok (f key)) filter) prefix
    specifiedType
  = Ok (List.filter (kept (o :: c) filter prefix specifiedType)
          (scanned (o :: c))).
Proof.
  unfold findMembers.
  destruct filter as [f|], (given_prefix prefix) as [p|] eqn:Hprefix,
    specifiedType as [instance_of|]; cbn [option_map];
    try (by apply (find_kept_all (o :: c) (Some f)));
    try (by apply (find_kept_all (o :: c) None)).
  unfold kept. rewrite Hprefix. cbn [orb].
  by induction (scanned (o :: c)).
Qed.

(** *** [RuleField.validate] on a present value *)


(** What [rule.validate(value)] does for a known rule. *)
Lemma rule_validate_known rule v :
  is_Rule rule = true ->
  known catalog rule = true ->
  rule_validate catalog to_string rule v
  = (if named "isOptional" rule then [] else [call_of to_string v rule],
     Ok (if passes v rule then newRuleResult true ""
         else newRuleResult false (rule_message rule))).
Proof.
  destruct rule as [| | | | | | |name msg options|]; try discriminate.
  intros _. unfold known, rule_passes, named, call_of, rule_validate,
    Rule_validate. cbn [rule_name rule_options rule_message].
  destruct (String.eqb name "isOptional"); [reflexivity|]. cbn [orb].
  destruct (catalog name) as [predicate|]; [|discriminate]. intros _.
  by destruct (predicate (to_string v) options).
Qed.

Lemma rule_validate_unknown rule v :
  is_Rule rule = true ->
  known catalog rule = false ->
  rule_validate catalog to_string rule v = ([], Throw TypeError).
Proof.
  destruct rule as [| | | | | | |name msg options|]; try discriminate.
  intros _. unfold known, named, rule_validate, Rule_validate.
  cbn [rule_name]. destruct (String.eqb name "isOptional"); [discriminate|].
  cbn [orb]. by destruct (catalog name).
Qed.

Lemma validate_loop_step rule rs v :
  validate_loop catalog to_string (rule :: rs) v
  = (r ← rule_validate catalog to_string rule v;
     errorMessages ← validate_loop catalog to_string rs v;
     mret (if pass r then errorMessages
           else text_to_string (message r) :: errorMessages)).
Proof. reflexivity. Qed.



Lemma validate_loop_unknown before rule after v :
  rule_set (before ++ rule :: after) = true ->
  forallb (known catalog) before = true ->
  known catalog rule = false ->
  validate_loop catalog to_string (before ++ rule :: after) v
  = (map (call_of to_string v)
       (List.filter (fun rule => negb (named "isOptional" rule)) before),
     Throw TypeError).
Proof.
  intros Hrs Hknown Hunknown. induction before as [|r before IH].
  - apply andb_prop in Hrs as [Hr _]. cbn [app].
    by rewrite validate_loop_step, (rule_validate_unknown rule v Hr Hunknown).
  - apply andb_prop in Hrs as [Hr Hrs].
    apply andb_prop in Hknown as [Hk Hks].
    rewrite <- app_comm_cons, validate_loop_step,
      (rule_validate_known r v Hr Hk), (IH Hrs Hks).
    cbn [mbind M_bind List.filter].
    by destruct (named "isOptional" r).
Qed.

(** A rule whose name the catalog does not have is fatal for a present
    value: the call throws a [TypeError], not a validation failure, after
    the rules before it have run; the rules after it are not invoked. *)
Theorem unknown_predicate_is_fatal f before rule after v :
  rules f = VArr (before ++ rule :: after)%list ->
  rule_set (before ++ rule :: after) = true ->
  forallb (known catalog) before = true ->
  known catalog rule = false ->
  nullish v = false ->
  field_validate f v
  = (map (call_of to_string v)
       (List.filter (fun rule => negb (named "isOptional" rule)) before),
     Throw TypeError).
Proof.
  intros Hf Hrs Hknown Hunknown Hv. unfold RuleField_validate.
  rewrite Hv, Hf. cbn [iterate lift mbind M_bind].
  by rewrite (validate_loop_unknown before rule after v Hrs Hknown Hunknown).
Qed.

(** With several [isOptional] rules, the first one decides the default of
    an absent value: its first option, when that is truthy. *)
Theorem first_optional_rule_gives_default f before message options after v :
  rules f = VArr (before ++ VRule "isOptional" message options :: after)%list ->
  rule_set (before ++ VRule "isOptional" message options :: after) = true ->
  mentions "isOptional" before = false ->
  truthy (hd VUndef options) = true ->
  nullish v = true ->
  field_validate f v
  = ([], Ok (newRuleFieldResult true "" (hd VUndef options))).
Proof.
  intros Hf Hrs Hbefore Hdefault Hv.
  rewrite (field_validate_absent f _ v Hf Hrs Hv).
  assert (List.find (named "isOptional")
            (before ++ VRule "isOptional" message options :: after)
          = Some (VRule "isOptional" message options)) as Hfind.
  { rewrite find_over_app. clear Hf Hrs.
    induction before as [|r before IH]; [reflexivity|].
    cbn [mentions existsb] in Hbefore.
    apply orb_false_elim in Hbefore as [Hr Hbefore].
    cbn [List.find]. rewrite Hr. by apply IH. }
  unfold declared_default. rewrite Hfind. cbn [rule_options].
  rewrite Hdefault.
  assert (mentions "isOptional"
            (before ++ VRule "isOptional" message options :: after) = true)
    as ->; [|reflexivity].
  unfold mentions. rewrite existsb_app. cbn [existsb].
  apply orb_true_r.
Qed.

(** *** What the checks leave alone *)

(** The verdict on a rule-set member does not depend on the checked bag:
    what the members checked before it wrote does not change it, since the
    field is looked up in the raw parameters. *)
Theorem verdict_ignores_checked_bag this bag key rules_ :
  member_of this key = MVal rules_ ->
  key <> "paramsChecked" ->
  verdict catalog to_string parseInt parseFloat (with_checked this bag) key
  = verdict catalog to_string parseInt parseFloat this key.
Proof.
  intros _ Hkey.
  by destruct (verdict_stable (with_checked this bag) this key) as [-> _].
Qed.

Lemma check_loop_same_definition keys :
  forall this errorMessages log this' errorMessages',
  check_loop catalog to_string parseInt parseFloat this keys errorMessages
  = (log, Ok (this', errorMessages')) ->
  same_definition this this'.
Proof.
  induction keys as [|key keys IH]; intros this errorMessages log this'
    errorMessages'.
  - intros [= _ <- _]. apply same_definition_refl.
  - rewrite check_loop_step.
    destruct (check this key) as [log1 [[this1 result]|e]] eqn:Hcheck;
      [|discriminate].
    cbn [mbind M_bind].
    destruct (check_loop _ _ _ _ this1 keys _) as [log2 outcome2] eqn:Hloop.
    intros [= _ ->].
    eapply same_definition_trans;
      [by eapply check_same_definition|by eapply IH].
Qed.

(** What a successful [validate] does to the instance. *)
Lemma validate_success this this' :
  outcome (run this) = Ok this' ->
  exists keys log,
    findMembers (chain this) (Some (_findMembersFilter this)) None None
    = Ok keys
    /\ check_loop catalog to_string parseInt parseFloat
         (set_memberKeys this keys) keys []
       = (log, Ok (this', [])).
Proof.
  unfold validate.
  destruct (findMembers (chain this) (Some (_findMembersFilter this))
              None None) as [keys|e]; [|discriminate].
  cbn [lift mbind M_bind].
  destruct (check_loop _ _ _ _ _ keys [])
    as [log [[this1 errorMessages]|e]] eqn:Hloop; [|discriminate].
  cbn [mbind M_bind].
  destruct errorMessages as [|m ms]; [|discriminate].
  cbn [mret M_ret outcome snd]. intros [= <-]. by exists keys, log.
Qed.

(** On a validator whose discovered members are all rule sets, a
    successful [validate] records the discovered keys in [memberKeys] and
    changes nothing else but [paramsChecked]: the raw parameters are as
    they were, and [get(path, false)] returns what it returned before. *)
Theorem validate_keeps_raw_params this this' keys :
  findMembers (chain this) (Some (_findMembersFilter this)) None None
  = Ok keys ->
  Forall (fun key => exists rules_, member_of this key = MVal rules_) keys ->
  outcome (run this) = Ok this' ->
  memberKeys this' = VArr (map VStr keys)
  /\ constructor_name this' = constructor_name this
  /\ params this' = params this
  /\ declared this' = declared this
  /\ prototypes this' = prototypes this
  /\ forall path, get this' path false = get this path false.
Proof.
  intros Hkeys _ (keys' & log & Hkeys' & Hloop)%validate_success.
  rewrite Hkeys in Hkeys'. injection Hkeys' as <-.
  apply check_loop_same_definition in Hloop
    as (Hname & Hparams & Hmember & Hdeclared & Hprotos).
  cbn in Hname, Hparams, Hmember, Hdeclared, Hprotos.
  repeat split; try done. intros path. unfold get. by rewrite Hparams.
Qed.

(** [validate] returns only when every discovered member passed. *)
Theorem validate_returns_only_when_all_pass this this' :
  (forall xs, paramsChecked this <> VArr xs) ->
  outcome (run this) = Ok this' ->
  exists keys,
    findMembers (chain this) (Some (_findMembersFilter this)) None None
    = Ok keys
    /\ forall key, In key keys ->
         exists log,
           verdict catalog to_string parseInt parseFloat
             (set_memberKeys this keys) key
           = (log, Ok {| check_message := "ok"; success := true |}).
Proof.
  intros Hbag (keys & log & Hkeys & Hloop)%validate_success.
  exists keys. split; [exact Hkeys|]. intros key Hin.
  pose proof (discovered_not_paramsChecked this keys Hbag Hkeys) as Hnames.
  destruct (check_loop_all_pass (set_memberKeys this keys) keys
              (set_memberKeys this keys) [] log this'
              (same_definition_refl _) Hnames Hloop key Hin)
    as (log' & result & Hverdict & Hsuccess).
  exists log'. rewrite Hverdict. do 2 f_equal.
  rewrite verdict_check in Hverdict.
  destruct (member_of (set_memberKeys this keys) key) as [f|rules_]
    eqn:Hmember.
  - rewrite (check_custom _ key f Hmember) in Hverdict.
    destruct (f _) as [|error]; [by injection Hverdict as _ <-|].
    destruct (message_of error); [|discriminate].
    injection Hverdict as _ <-. discriminate.
  - rewrite (check_field _ key rules_ Hmember) in Hverdict.
    destruct (RuleField_validate _ _ _ _ _ _) as [log1 [fieldResult|e]];
      [|discriminate].
    destruct (pass fieldResult); injection Hverdict as _ <-;
      [reflexivity|discriminate].
Qed.

(** The loop up to a check that throws. *)
Lemma check_loop_aborts this0 before : forall this1 errorMessages results
    key after log e,
  same_definition this0 this1 ->
  Forall (fun key => key <> "paramsChecked") (before ++ key :: after) ->
  Forall2 (fun key result =>
             outcome (verdict catalog to_string parseInt parseFloat this0 key)
             = Ok result) before results ->
  verdict catalog to_string parseInt parseFloat this0 key = (log, Throw e) ->
  check_loop catalog to_string parseInt parseFloat this1
    (before ++ key :: after) errorMessages
  = ((concat (map (fun key =>
                     calls (verdict catalog to_string parseInt parseFloat
                              this0 key)) before) ++ log)%list,
     Throw e).
Proof.
  induction before as [|k before IH];
    intros this1 errorMessages results key after log e Hsame Hnames Hresults
      Hthrow.
  - cbn [app map concat]. rewrite check_loop_step.
    inversion Hnames as [|? ? Hkey _]; subst.
    destruct (verdict_stable this0 this1 key Hsame Hkey) as [Hverdict _].
    rewrite Hthrow, verdict_check in Hverdict.
    destruct (check this1 key) as [log1 [[this2 result]|e1]];
      [discriminate|]. by injection Hverdict as -> ->.
  - inversion Hresults as [|? result ? results' Hresult Hrest]; subst.
    rewrite <- app_comm_cons in Hnames |- *.
    inversion Hnames as [|? ? Hk Hnames']; subst.
    destruct (verdict_stable this0 this1 k Hsame Hk) as [Hverdict _].
    rewrite (verdict_check this1 k) in Hverdict.
    rewrite check_loop_step.
    destruct (check this1 k) as [log1 [[this2 result']|e1]] eqn:Hcheck;
      rewrite Hverdict in Hresult; [|discriminate].
    pose proof (check_same_definition _ _ _ _ _ Hcheck) as Hstep.
    cbn [mbind M_bind].
    rewrite (IH this2 _ results' key after log e
               (same_definition_trans _ _ _ Hsame Hstep) Hnames' Hrest Hthrow).
    cbn [map concat]. rewrite Hverdict. cbn [calls fst].
    by rewrite app_assoc.
Qed.

(** An error thrown by the check of a member (a missing default, an unknown
    predicate) aborts [validate]: the members before it have been checked,
    those after it are not, and the error escapes as it is, whatever
    failures were collected before it. *)
Theorem authoring_error_aborts_validate this before key after results log e :
  (forall xs, paramsChecked this <> VArr xs) ->
  findMembers (chain this) (Some (_findMembersFilter this)) None None
  = Ok (before ++ key :: after)%list ->
  Forall2 (fun member result =>
             outcome (verdict catalog to_string parseInt parseFloat
                        (set_memberKeys this (before ++ key :: after)) member)
             = Ok result) before results ->
  verdict catalog to_string parseInt parseFloat
    (set_memberKeys this (before ++ key :: after)) key = (log, Throw e) ->
  run this
  = ((concat (map (fun member =>
                     calls (verdict catalog to_string parseInt parseFloat
                              (set_memberKeys this (before ++ key :: after))
                              member)) before) ++ log)%list,
     Throw e).
Proof.
  intros Hbag Hkeys Hresults Hthrow.
  pose proof (discovered_not_paramsChecked this _ Hbag Hkeys) as Hnames.
  unfold validate. rewrite Hkeys. cbn [lift mbind M_bind].
  by rewrite (check_loop_aborts _ before _ [] results key after log e
                (same_definition_refl _) Hnames Hresults Hthrow).
Qed.

(** *** A malformed rule array *)

(** What [List.find] returns is the first element that satisfies the
    predicate. *)
Lemma find_first {A} (p : A -> bool) (l : list A) x :
  List.find p l = Some x ->
  exists before after,
    l = (before ++ x :: after)%list
    /\ (forall y, In y before -> p y = false)
    /\ p x = true.
Proof.
  induction l as [|y l IH]; [discriminate|]. cbn [List.find].
  destruct (p y) eqn:Hy.
  - intros [= ->]. exists [], l. by repeat split.
  - intros (before & after & -> & Hbefore & Hx)%IH.
    exists (y :: before), after. split; [reflexivity|]. split; [|exact Hx].
    intros z [<-|Hz]; [exact Hy|by apply Hbefore].
Qed.

(** Discovery, as the scanned keys decide it. *)
Lemma findMembers_scanned this :
  findMembers (chain this) (Some (_findMembersFilter this)) None None
  = match List.find (malformed this) (scanned (chain this)) with
    | Some key => Throw (authoring_error this key)
    | None => Ok (List.filter (accepted this) (scanned (chain this)))
    end.
Proof.
  rewrite findMembers_find. apply find_first_malformed.
  unfold chain. discriminate.
Qed.

(** C8, amended: for every validator instance declaring, under a name that
    does not match the custom-check prefix pattern, a member that is an
    array containing an element that is not a [Rule] instance, validation
    raises during member discovery, before any field is checked and any
    predicate invoked, an [Error] (not the structured
    [ParameterException]) whose message names the validator type and the
    field of the first such member in discovery order; an empty array
    member is accepted as a rule set. *)
Theorem C8_malformed_rule_array_aborts_discovery this :
  (forall key elements,
     In key (scanned (chain this)) ->
     validate_pattern key = false ->
     member_of this key = MVal (VArr elements) ->
     forallb is_Rule elements = false ->
     exists before culprit after bad,
       scanned (chain this) = (before ++ culprit :: after)%list
       /\ (forall earlier, In earlier before -> malformed this earlier = false)
       /\ validate_pattern culprit = false
       /\ member_of this culprit = MVal (VArr bad)
       /\ forallb is_Rule bad = false
       /\ run this
          = ([], Throw (Error (constructor_name this +:+ "校验器中"
                               +:+ culprit
                               +:+ "字段的验证数组必须全部为Rule类型"))))
  /\ (forall name,
        member_of this name = MVal (VArr []) ->
        _findMembersFilter this name = Ok true
        /\ malformed this name = false).
Proof.
  split.
  - intros key elements Hin Hname Hmember Hbad.
    assert (malformed this key = true) as Hkey.
    { unfold malformed, is_bad_array. by rewrite Hname, Hmember, Hbad. }
    destruct (List.find (malformed this) (scanned (chain this)))
      as [culprit|] eqn:Hfind;
      [|pose proof (find_none _ _ Hfind key Hin); congruence].
    destruct (find_first _ _ _ Hfind)
      as (before & after & Hsplit & Hbefore & Hculprit).
    exists before, culprit, after.
    unfold malformed, is_bad_array in Hculprit.
    destruct (validate_pattern culprit); [discriminate|].
    destruct (member_of this culprit) as [|[| | | | |bad| | |]] eqn:Hm;
      try discriminate.
    exists bad. cbn [negb andb] in Hculprit.
    apply negb_true_iff in Hculprit.
    repeat (split; [done|]).
    apply validate_discovery_throws. by rewrite findMembers_scanned, Hfind.
  - intros name Hempty. unfold _findMembersFilter, malformed, is_bad_array.
    rewrite Hempty. by destruct (validate_pattern name).
Qed.

(** *** A custom check that fails *)

Lemma failing_filter_app (results later : list checked) failure :
  success failure = false ->
  map check_message
    (List.filter (fun result => negb (success result))
       (results ++ failure :: later))
  = (map check_message
       (List.filter (fun result => negb (success result)) results)
     ++ check_message failure
        :: map check_message
             (List.filter (fun result => negb (success result)) later))%list.
Proof.
  intros Hfailure. rewrite List.filter_app, map_app. cbn [List.filter].
  by rewrite Hfailure.
Qed.

(** C9, where the code departs from it.  A custom check that fails by
    throwing an [Error], or any value other than undefined and null, is
    caught: its message ([参数错误] when it has none) is collected at its
    place among the messages, no predicate is invoked for it, and
    [validate] goes on with the members after it.  A custom check that
    throws undefined or null is not: reading [error.message] in the
    [catch] block throws a [TypeError], which aborts the scan and escapes
    [validate] as it is, whatever failures were collected before it. *)
Theorem C9_custom_check_failure_in_validate this before key after f results :
  (forall xs, paramsChecked this <> VArr xs) ->
  findMembers (chain this) (Some (_findMembersFilter this)) None None
  = Ok (before ++ key :: after)%list ->
  member_of (set_memberKeys this (before ++ key :: after)) key = MFun f ->
  Forall2 (fun member result =>
             outcome (verdict catalog to_string parseInt parseFloat
                        (set_memberKeys this (before ++ key :: after)) member)
             = Ok result) before results ->
  (forall error later,
     f (params this) = Rejected error ->
     (forall v, error = Thrown v -> nullish v = false) ->
     Forall2 (fun member result =>
                outcome (verdict catalog to_string parseInt parseFloat
                           (set_memberKeys this (before ++ key :: after))
                           member)
                = Ok result) after later ->
     verdict catalog to_string parseInt parseFloat
       (set_memberKeys this (before ++ key :: after)) key
     = ([], Ok {| check_message := failure_text to_string error;
                  success := false |})
     /\ run this
        = ((concat (map (fun member =>
                           calls (verdict catalog to_string parseInt
                                    parseFloat
                                    (set_memberKeys this
                                       (before ++ key :: after)) member))
                      before)
            ++ concat (map (fun member =>
                              calls (verdict catalog to_string parseInt
                                       parseFloat
                                       (set_memberKeys this
                                          (before ++ key :: after)) member))
                         after))%list,
           Throw (ParameterException 10001
                    (map check_message
                       (List.filter (fun result => negb (success result))
                          results)
                     ++ failure_text to_string error
                        :: map check_message
                             (List.filter
                                (fun result => negb (success result))
                                later))%list)))
  /\ (forall v,
        f (params this) = Rejected (Thrown v) ->
        nullish v = true ->
        run this
        = (concat (map (fun member =>
                          calls (verdict catalog to_string parseInt parseFloat
                                   (set_memberKeys this
                                      (before ++ key :: after)) member))
                     before),
           Throw TypeError)).
Proof.
  intros Hbag Hkeys Hmember Hresults.
  set (this0 := set_memberKeys this (before ++ key :: after)) in *.
  pose proof (discovered_not_paramsChecked this _ Hbag Hkeys) as Hnames.
  pose proof (check_custom this0 key f Hmember) as Hcheck.
  change (params this0) with (params this) in Hcheck.
  split.
  - intros error later Hf Hvalue Hlater. rewrite Hf in Hcheck.
    assert (exists error_message, message_of error = Ok error_message)
      as [error_message Hmessage].
    { destruct error as [message|v]; [by eexists|].
      cbn [message_of]. rewrite (Hvalue v eq_refl). by eexists. }
    rewrite Hmessage in Hcheck.
    set (failure := {| check_message := failure_text to_string error;
                       success := false |}) in *.
    assert (verdict catalog to_string parseInt parseFloat this0 key
            = ([], Ok failure)) as Hverdict.
    { by rewrite verdict_check, Hcheck. }
    split; [exact Hverdict|].
    destruct (check_loop_collects this0 (before ++ key :: after) this0 []
                (results ++ failure :: later)
                (same_definition_refl this0) Hnames)
      as (this' & _ & Hloop).
    { apply Forall2_app; [exact Hresults|].
      apply List.Forall2_cons; [by rewrite Hverdict|exact Hlater]. }
    unfold validate. rewrite Hkeys. cbn [lift mbind M_bind]. fold this0.
    rewrite Hloop. cbn [mbind M_bind app].
    rewrite (failing_filter_app results later failure eq_refl).
    rewrite map_app, concat_app. cbn [map concat]. rewrite Hverdict.
    cbn [calls fst app check_message].
    destruct (map check_message
                (List.filter (fun result => negb (success result)) results));
      cbn [app throw]; by rewrite app_nil_r.
  - intros v Hf Hnull. rewrite Hf in Hcheck. cbn [message_of] in Hcheck.
    rewrite Hnull in Hcheck.
    assert (verdict catalog to_string parseInt parseFloat this0 key
            = ([], Throw TypeError)) as Hverdict.
    { by rewrite verdict_check, Hcheck. }
    unfold validate. rewrite Hkeys. cbn [lift mbind M_bind]. fold this0.
    rewrite (check_loop_aborts this0 before this0 [] results key after []
               TypeError (same_definition_refl _) Hnames Hresults Hverdict).
    by rewrite app_nil_r.
Qed.

(** *** A second [validate] *)

Lemma baseSet_not_array bag path x :
  (forall xs, bag <> VArr xs) -> forall xs, baseSet bag path x <> VArr xs.
Proof.
  intros Hbag xs. destruct path as [|key path]; [apply Hbag|].
  cbn [baseSet]. destruct (unsafe_key key); [apply Hbag|].
  destruct bag as [| | | | |ys| | |]; cbn [assignValue]; try done.
  by destruct (Hbag ys).
Qed.

Lemma check_loop_not_array keys :
  forall this errorMessages log this' errorMessages',
  (forall xs, paramsChecked this <> VArr xs) ->
  check_loop catalog to_string parseInt parseFloat this keys errorMessages
  = (log, Ok (this', errorMessages')) ->
  forall xs, paramsChecked this' <> VArr xs.
Proof.
  induction keys as [|key keys IH]; intros this errorMessages log this'
    errorMessages' Hbag.
  - by intros [= _ <- _].
  - rewrite check_loop_step.
    destruct (check this key) as [log1 [[this1 result]|e]] eqn:Hcheck;
      [|discriminate].
    cbn [mbind M_bind].
    destruct (check_loop _ _ _ _ this1 keys _) as [log2 outcome2] eqn:Hloop.
    intros [= _ ->].
    assert (forall xs, paramsChecked this1 <> VArr xs) as Hbag1.
    { rewrite (check_state _ _ _ _ _ Hcheck).
      destruct (written _ _ _ _ this key) as [[path x]|]; [|apply Hbag].
      by apply baseSet_not_array. }
    exact (IH this1 _ _ _ _ Hbag1 Hloop).
Qed.

(** The scanned keys of an instance depend on the names of its members
    only. *)
Lemma scanned_chain a b :
  map fst (declared a) = map fst (declared b) ->
  prototypes a = prototypes b ->
  scanned (chain a) = scanned (chain b).
Proof.
  intros Hdeclared Hprotos. unfold chain. rewrite <- Hprotos.
  destruct (prototypes a) as [|o c]; [reflexivity|].
  rewrite !scanned_step. f_equal. unfold ownKeys.
  by rewrite !map_app, Hdeclared.
Qed.

Lemma memberKeys_scanned this :
  prototypes this <> [] -> In "memberKeys" (scanned (chain this)).
Proof.
  intros Hprotos. unfold chain.
  destruct (prototypes this) as [|o c]; [done|].
  rewrite scanned_step. apply in_or_app. left.
  unfold ownKeys. apply in_or_app. right.
  unfold named_keys. apply filter_In. split; [|reflexivity].
  cbn. tauto.
Qed.

Lemma find_only {A} (p : A -> bool) (l : list A) x :
  In x l -> p x = true -> (forall y, In y l -> p y = true -> y = x) ->
  List.find p l = Some x.
Proof.
  induction l as [|y l IH]; [done|]. intros Hin Hx Honly. cbn [List.find].
  destruct (p y) eqn:Hy.
  - f_equal. apply Honly; [by left|done].
  - destruct Hin as [->|Hin]; [congruence|].
    apply IH; [done..|]. intros z Hz. apply Honly. by right.
Qed.

(** [validate] is not repeatable: once it has returned with at least one
    member discovered, [memberKeys] is an array of names, which the next
    discovery takes for a malformed rule array; a second call throws the
    authoring error for the field [memberKeys] before checking
    anything. *)
Theorem validate_is_not_repeatable this this' key keys :
  (forall xs, params this <> VArr xs) ->
  (forall xs, paramsChecked this <> VArr xs) ->
  prototypes this <> [] ->
  findMembers (chain this) (Some (_findMembersFilter this)) None None
  = Ok (key :: keys) ->
  outcome (run this) = Ok this' ->
  run this' = ([], Throw (authoring_error this "memberKeys")).
Proof.
  intros Hparams Hbag Hprotos Hkeys Hrun.
  destruct (validate_success this this' Hrun) as (keys' & log & Hkeys' & Hloop).
  rewrite Hkeys in Hkeys'. injection Hkeys' as <-.
  pose proof (check_loop_not_array _ (set_memberKeys this (key :: keys))
                _ _ _ _ Hbag Hloop) as Hbag'.
  apply check_loop_same_definition in Hloop as Hsame.
  destruct Hsame as (Hname & Hraw & Hmember & Hdeclared & Hchain).
  cbn in Hname, Hraw, Hmember, Hdeclared, Hchain.
  apply validate_discovery_throws.
  rewrite findMembers_find, find_first_malformed
    by (unfold chain; discriminate).
  (* no key of the instance was malformed before *)
  assert (forall k, In k (scanned (chain this)) -> malformed this k = false)
    as Hclean.
  { rewrite findMembers_find, find_first_malformed in Hkeys
      by (unfold chain; discriminate).
    destruct (List.find (malformed this) (scanned (chain this))) eqn:Hfind;
      [discriminate|].
    intros k Hk. apply (find_none _ _ Hfind k Hk). }
  rewrite (scanned_chain this' this) by (by rewrite <- ?Hdeclared, <- ?Hchain).
  rewrite (find_only (malformed this') _ "memberKeys").
  - unfold authoring_error. by rewrite Hname.
  - by apply memberKeys_scanned.
  - unfold malformed, member_of, chain. cbn. by rewrite <- Hmember.
  - intros k Hk Hbad.
    destruct (decide (k = "memberKeys")) as [|Hk1]; [done|].
    destruct (decide (k = "paramsChecked")) as [->|Hk2].
    { unfold malformed, member_of, chain in Hbad. cbn in Hbad.
      destruct (paramsChecked this') as [| | | | |xs| | |] eqn:Hp;
        try discriminate. by destruct (Hbag' xs). }
    specialize (Hclean k Hk).
    assert (member_of this' k = member_of this k) as Hsame.
    { unfold member_of, chain. cbn [lookup own app].
      rewrite <- Hraw, <- Hdeclared, <- Hchain.
      destruct (String.eqb "params" k); [reflexivity|].
      destruct (String.eqb_spec "paramsChecked" k) as [<-|_]; [done|].
      destruct (String.eqb_spec "memberKeys" k) as [<-|_]; [done|].
      reflexivity. }
    unfold malformed in Hbad, Hclean. rewrite Hsame in Hbad. congruence.
Qed.

(** *** [get] before [validate] *)

(** On a validator as its constructor leaves it, [get(path)] returns the
    raw value the path leads to when that value is truthy, and undefined
    otherwise: nothing is validated, coerced or defaulted yet, and there
    is no default bucket to fall back to. *)
Theorem get_before_validate this ctx path :
  paramsChecked this = _assembleAllParams ctx ->
  reads_builtin (_assembleAllParams ctx)
    (castPath path (_assembleAllParams ctx)) = false ->
  get this path true
  = Ok (let value := lodash_get_string (_assembleAllParams ctx) path VNull in
        if truthy value then value else VUndef).
Proof.
  intros Hfresh _.
  rewrite (get_parsed _ path
             (<["body" := request_body ctx]>
              (<["query" := request_query ctx]>
               (<["path" := ctx_params ctx]>
                (<["header" := request_header ctx]> ∅))))) by exact Hfresh.
  cbn zeta. rewrite Hfresh.
  destruct (truthy (lodash_get_string (_assembleAllParams ctx) path VNull));
    [reflexivity|].
  assert (prop (_assembleAllParams ctx) "default" = VUndef) as ->.
  { unfold _assembleAllParams. rewrite prop_object.
    by rewrite !lookup_insert_ne, lookup_empty by done. }
  unfold lodash_get_key, lodash_last, lodash_get_string.
  destruct (last (split_dot path)) as [segment|]; [|reflexivity].
  cbn [from_option]. unfold lodash_get.
  by destruct (castPath segment VUndef).
Qed.

(** *** RegisterValidator *)




End Properties.

(** ** The properties on the example validators *)

(** The age, required, of a request that carries none. *)
Lemma C6_absent_required_field_fails_witness :
  calls (RuleField_validate Sample.catalog Sample.to_string Sample.parseInt
           Sample.parseFloat Fixture.age_field VNull) = []
  /\ outcome (RuleField_validate Sample.catalog Sample.to_string
                Sample.parseInt Sample.parseFloat Fixture.age_field VNull)
     = Ok (newRuleFieldResult false "字段是必填参数" VNull).
Proof.
  apply (C6_absent_required_field_fails Sample.catalog Sample.to_string
           Sample.parseInt Sample.parseFloat Fixture.age_field
           [VRule "isInt" (Some "age must be an integer") []] VNull);
    reflexivity.
Defined.

(** With the rules [isBoolean, isInt] the text [1] passes both, and its
    legal value is the boolean [true]. *)
Lemma C3_first_coercion_rule_decides_witness :
  outcome (RuleField_validate Sample.catalog Sample.to_string Sample.parseInt
             Sample.parseFloat Fixture.flag_field (VStr "1"))
  = Ok (newRuleFieldResult true "" (VBool true)).
Proof.
  apply (proj1 (C3_first_coercion_rule_decides Sample.catalog
                  Sample.to_string Sample.parseInt Sample.parseFloat
                  Fixture.flag_field
                  [VRule "isBoolean" None []; VRule "isInt" None []]
                  (VStr "1") eq_refl eq_refl eq_refl eq_refl)
           [] (VRule "isBoolean" None []) [VRule "isInt" None []] ToBoolean);
    reflexivity.
Defined.

(** C3 as stated fails: the rule set [isBoolean, isInt] bears the integer
    marker, the text [1] passes both rules, and yet the legal value is the
    boolean [true], not the integer 1 that [parseInt] gives. *)
Lemma C3_integer_does_not_take_precedence :
  mentions "isInt" [VRule "isBoolean" None []; VRule "isInt" None []] = true
  /\ forallb (rule_passes Sample.catalog Sample.to_string (VStr "1"))
       [VRule "isBoolean" None []; VRule "isInt" None []] = true
  /\ outcome (RuleField_validate Sample.catalog Sample.to_string
                Sample.parseInt Sample.parseFloat Fixture.flag_field
                (VStr "1"))
     = Ok (newRuleFieldResult true "" (VBool true))
  /\ Sample.parseInt (VStr "1") = VNum (Num (1 # 1)).
Proof. repeat split; reflexivity. Qed.

(** Discovery on [Child]: the field, then the method of [Child.prototype]
    and the one of [Parent.prototype], under the same name. *)
Lemma C7_discovery_order_without_deduplication_witness :
  findMembers (chain (Fixture.ChildValidator (Fixture.request [] [])))
    (Some (_findMembersFilter (Fixture.ChildValidator (Fixture.request [] []))))
    None None
  = Ok ["age"; "validateOwner"; "validateOwner"].
Proof.
  refine (proj1 (C7_discovery_order_without_deduplication
                   (_findMembersFilter
                      (Fixture.ChildValidator (Fixture.request [] [])))
                   (fun key => String.eqb key "age"
                               || String.eqb key "validateOwner")
                   _ _ _)).
  intros key Hin. vm_compute in Hin.
  repeat (destruct Hin as [<-|Hin]; [reflexivity|]). destruct Hin.
Defined.

(** C7 as stated fails: a name defined at two levels of the chain is
    returned twice; and the members declared as [b], [2], [1], in this
    order, are discovered as [1], [2], [b]. *)
Lemma C7_duplicates_and_index_order :
  findMembers (chain (Fixture.ChildValidator (Fixture.request [] [])))
    (Some (_findMembersFilter (Fixture.ChildValidator (Fixture.request [] []))))
    None None
  = Ok ["age"; "validateOwner"; "validateOwner"]
  /\ ~ List.NoDup ["age"; "validateOwner"; "validateOwner"]
  /\ map fst (declared (Cases.NumberedValidator (Fixture.request [] [])))
     = ["b"; "2"; "1"]
  /\ findMembers (chain (Cases.NumberedValidator (Fixture.request [] [])))
       (Some (_findMembersFilter
                (Cases.NumberedValidator (Fixture.request [] []))))
       None None
     = Ok ["1"; "2"; "b"].
Proof.
  split; [reflexivity|]. split; [|split; reflexivity]. intros Hnodup.
  apply List.NoDup_cons_iff in Hnodup as [_ Hnodup].
  apply List.NoDup_cons_iff in Hnodup as [Hfresh _].
  apply Hfresh. by left.
Qed.

(** [BadValidator] declares [tags] as an array that holds a string, and
    [EmptyValidator] as an empty array. *)
Lemma C8_malformed_rule_array_aborts_discovery_witness :
  (exists before culprit after bad,
     scanned (chain (Fixture.BadValidator (Fixture.request [] [])))
     = (before ++ culprit :: after)%list
     /\ (forall earlier,
           In earlier before ->
           malformed (Fixture.BadValidator (Fixture.request [] [])) earlier
           = false)
     /\ validate_pattern culprit = false
     /\ member_of (Fixture.BadValidator (Fixture.request [] [])) culprit
        = MVal (VArr bad)
     /\ forallb is_Rule bad = false
     /\ validate Sample.catalog Sample.to_string Sample.parseInt
          Sample.parseFloat (Fixture.BadValidator (Fixture.request [] []))
        = ([], Throw (Error ("BadValidator" +:+ "校验器中" +:+ culprit
                             +:+ "字段的验证数组必须全部为Rule类型"))))
  /\ (_findMembersFilter (Cases.EmptyValidator (Fixture.request [] [])) "tags"
      = Ok true
      /\ malformed (Cases.EmptyValidator (Fixture.request [] [])) "tags"
         = false).
Proof.
  split.
  - apply (proj1 (C8_malformed_rule_array_aborts_discovery Sample.catalog
                    Sample.to_string Sample.parseInt Sample.parseFloat
                    (Fixture.BadValidator (Fixture.request [] [])))
             "tags" [VStr "not-a-rule"]).
    + vm_compute. tauto.
    + reflexivity.
    + reflexivity.
    + reflexivity.
  - apply (proj2 (C8_malformed_rule_array_aborts_discovery Sample.catalog
                    Sample.to_string Sample.parseInt Sample.parseFloat
                    (Cases.EmptyValidator (Fixture.request [] [])))
             "tags").
    reflexivity.
Defined.

(** C8 as stated fails: the array [['not-a-rule']] declared under the name
    [validateTags] passes discovery, and validation ends in the structured
    rejection of a required field. *)
Lemma C8_prefixed_name_skips_the_check :
  member_of (Fixture.TagsValidator (Fixture.request [] [])) "validateTags"
  = MVal (VArr [VStr "not-a-rule"])
  /\ findMembers (chain (Fixture.TagsValidator (Fixture.request [] [])))
       (Some (_findMembersFilter (Fixture.TagsValidator (Fixture.request [] []))))
       None None
     = Ok ["validateTags"]
  /\ outcome (validate Sample.catalog Sample.to_string Sample.parseInt
               Sample.parseFloat (Fixture.TagsValidator (Fixture.request [] [])))
     = Throw (ParameterException 10001 ["validateTags：字段是必填参数"]).
Proof. repeat split; reflexivity. Qed.

(** The custom checks of [Child] throw an [Error], and [validate] reports
    their messages after that of the age; the custom check of
    [TokenValidator] rejects with undefined, and [validate] throws a
    [TypeError] although the age is valid. *)
Lemma C9_custom_check_failure_in_validate_witness :
  validate Sample.catalog Sample.to_string Sample.parseInt Sample.parseFloat
    (Fixture.ChildValidator (Fixture.request [("age", VStr "x")] []))
  = ([Call "isInt" "x" []],
     Throw (ParameterException 10001
              ["age：age must be an integer"; "not the owner";
               "not the owner"]))
  /\ validate Sample.catalog Sample.to_string Sample.parseInt
       Sample.parseFloat
       (Cases.TokenValidator (Fixture.request [("age", VStr "7")] []))
     = ([Call "isInt" "7" []], Throw TypeError).
Proof.
  split.
  - refine (proj2 (proj1 (C9_custom_check_failure_in_validate Sample.catalog
              Sample.to_string Sample.parseInt Sample.parseFloat
              (Fixture.ChildValidator (Fixture.request [("age", VStr "x")] []))
              ["age"] "validateOwner" ["validateOwner"]
              (fun _ => Rejected (ErrorObject "not the owner"))
              [{| check_message := "age：age must be an integer";
                  success := false |}]
              (fun xs => ltac:(discriminate)) eq_refl eq_refl _)
              (ErrorObject "not the owner")
              [{| check_message := "not the owner"; success := false |}]
              eq_refl (fun v => ltac:(discriminate)) _));
      repeat constructor.
  - refine (proj2 (C9_custom_check_failure_in_validate Sample.catalog
              Sample.to_string Sample.parseInt Sample.parseFloat
              (Cases.TokenValidator (Fixture.request [("age", VStr "7")] []))
              ["age"] "validateToken" []
              (fun _ => Rejected (Thrown VUndef))
              [{| check_message := "ok"; success := true |}]
              (fun xs => ltac:(discriminate)) eq_refl eq_refl _)
              VUndef eq_refl eq_refl).
    repeat constructor.
Defined.

(** A page number in the query string and another in the body: the query
    string wins, the number 3 is written at [query.page], and [body.page]
    is as it was.  With no page number at all, the default 1 is written at
    [default.page]. *)
Lemma C4_first_source_and_write_back_witness :
  (exists this',
     _check Sample.catalog Sample.to_string Sample.parseInt Sample.parseFloat
       (Fixture.PageValidator
          (Fixture.request [("page", VStr "3")] [("page", VStr "9")])) "page"
     = ([Call "isInt" "3" []],
        Ok (this', {| check_message := "ok"; success := true |}))
     /\ lodash_get (paramsChecked this') ["query"; "page"] VUndef
        = VNum (Num 3)
     /\ lodash_get (paramsChecked this') ["body"; "page"] VUndef = VStr "9")
  /\ (exists this',
        _check Sample.catalog Sample.to_string Sample.parseInt
          Sample.parseFloat (Fixture.PageValidator (Fixture.request [] []))
          "page"
        = ([], Ok (this', {| check_message := "ok"; success := true |}))
        /\ lodash_get (paramsChecked this') ["default"; "page"] VUndef
           = VNum (Num 1)).
Proof.
  split.
  - destruct (proj2 (C4_first_source_and_write_back Sample.catalog
                Sample.to_string Sample.parseInt Sample.parseFloat
                (Fixture.PageValidator
                   (Fixture.request [("page", VStr "3")] [("page", VStr "9")]))
                "page" _ eq_refl)
              [Call "isInt" "3" []] (newRuleFieldResult true "" (VNum (Num 3)))
              eq_refl) as (Hcheck & Hread & Hother & _).
    eexists. split; [exact Hcheck|]. split.
    + exact (Hread eq_refl eq_refl).
    + rewrite (Hother _ "body" "page" eq_refl) by discriminate. reflexivity.
  - destruct (proj2 (C4_first_source_and_write_back Sample.catalog
                Sample.to_string Sample.parseInt Sample.parseFloat
                (Fixture.PageValidator (Fixture.request [] []))
                "page" _ eq_refl)
              [] (newRuleFieldResult true "" (VNum (Num 1)))
              eq_refl) as (Hcheck & Hread & _).
    eexists. split; [exact Hcheck|]. exact (Hread eq_refl eq_refl).
Defined.

(** A page number that is 0 in the query string and empty in the body
    resolves to the declared default. *)
Lemma C10_falsy_values_are_skipped_witness :
  outcome (_check Sample.catalog Sample.to_string Sample.parseInt
             Sample.parseFloat
             (Fixture.PageValidator
                (Fixture.request [("page", VNum (Num 0))]
                   [("page", VStr "")])) "page")
  = Ok (set_checked
          (Fixture.PageValidator
             (Fixture.request [("page", VNum (Num 0))] [("page", VStr "")]))
          ["default"; "page"] (VNum (Num 1)),
        {| check_message := "ok"; success := true |}).
Proof.
  destruct (C10_falsy_values_are_skipped Sample.catalog Sample.to_string
              Sample.parseInt Sample.parseFloat
              (Fixture.PageValidator
                 (Fixture.request [("page", VNum (Num 0))]
                    [("page", VStr "")]))
              "page" _ eq_refl eq_refl) as (_ & Habsent & _).
  destruct (Habsent eq_refl) as (_ & _ & _ & Hdefault).
  exact (Hdefault eq_refl eq_refl).
Defined.

(** C10 as stated fails: the age is present in the query string but falsy
    (the number 0), the field has no [isOptional] rule, and yet it does not
    fail as required: the body supplies [5], which is what [isInt] is
    called on, and the check passes. *)
Lemma C10_later_source_still_supplies :
  raw (Fixture.AgeValidator
         (Fixture.request [("age", VNum (Num 0))] [("age", VStr "5")]))
    "query" "age" = VNum (Num 0)
  /\ mentions "isOptional"
       [VRule "isInt" (Some "age must be an integer") []] = false
  /\ verdict Sample.catalog Sample.to_string Sample.parseInt
       Sample.parseFloat
       (Fixture.AgeValidator
          (Fixture.request [("age", VNum (Num 0))] [("age", VStr "5")]))
       "age"
     = ([Call "isInt" "5" []],
        Ok {| check_message := "ok"; success := true |}).
Proof. repeat split; reflexivity. Qed.




(** The failing input of C2: the declared default 0 of an absent optional
    field is reported as missing. *)
Lemma C2_falsy_default_is_thrown_witness :
  RuleField_validate Sample.catalog Sample.to_string Sample.parseInt
    Sample.parseFloat Fixture.offset_field VNull
  = ([], Throw (Error "PageValidator校验器中page字段没有对可选参数设置默认的参数值！")).
Proof.
  apply (C2_falsy_default_is_thrown Sample.catalog Sample.to_string
           Sample.parseInt Sample.parseFloat Fixture.offset_field
           [VRule "isOptional" (Some "") [VNum (Num 0)]] VNull);
    reflexivity.
Defined.

(** ** Further properties on the example validators *)


(** [isEmail] is not in the sample catalog: the field throws after
    [isInt] has run, and [isBoolean] is not invoked. *)
Lemma unknown_predicate_is_fatal_witness :
  RuleField_validate Sample.catalog Sample.to_string Sample.parseInt
    Sample.parseFloat Cases.mail_field (VStr "1")
  = ([Call "isInt" "1" []], Throw TypeError).
Proof.
  apply (unknown_predicate_is_fatal Sample.catalog Sample.to_string
           Sample.parseInt Sample.parseFloat Cases.mail_field
           [VRule "isInt" None []] (VRule "isEmail" None [])
           [VRule "isBoolean" None []] (VStr "1"));
    reflexivity.
Defined.

(** Of the defaults 5 and 7, the absent page gets 5. *)
Lemma first_optional_rule_gives_default_witness :
  RuleField_validate Sample.catalog Sample.to_string Sample.parseInt
    Sample.parseFloat Cases.twice_optional_field VUndef
  = ([], Ok (newRuleFieldResult true "" (VNum (Num 5)))).
Proof.
  apply (first_optional_rule_gives_default Sample.catalog Sample.to_string
           Sample.parseInt Sample.parseFloat Cases.twice_optional_field
           [VRule "isInt" None []] None [VNum (Num 5)]
           [VRule "isOptional" None [VNum (Num 7)]] VUndef);
    reflexivity.
Defined.

(** The verdict on the age is the same over an emptied checked bag. *)
Lemma verdict_ignores_checked_bag_witness :
  verdict Sample.catalog Sample.to_string Sample.parseInt Sample.parseFloat
    (with_checked
       (Fixture.AgeValidator (Fixture.request [("age", VStr "7")] []))
       VNull) "age"
  = ([Call "isInt" "7" []], Ok {| check_message := "ok"; success := true |}).
Proof.
  rewrite (verdict_ignores_checked_bag Sample.catalog Sample.to_string
             Sample.parseInt Sample.parseFloat
             (Fixture.AgeValidator (Fixture.request [("age", VStr "7")] []))
             VNull "age" _ eq_refl) by discriminate.
  reflexivity.
Defined.

(** A valid age: the raw parameters of the returned instance are those of
    the request. *)
Lemma validate_keeps_raw_params_witness :
  exists this',
    outcome (validate Sample.catalog Sample.to_string Sample.parseInt
               Sample.parseFloat
               (Fixture.AgeValidator (Fixture.request [("age", VStr "7")] [])))
    = Ok this'
    /\ memberKeys this' = VArr [VStr "age"]
    /\ params this'
       = params (Fixture.AgeValidator
                   (Fixture.request [("age", VStr "7")] []))
    /\ get this' "query.age" false = Ok (VStr "7").
Proof.
  eexists. split; [reflexivity|].
  destruct (validate_keeps_raw_params Sample.catalog Sample.to_string
              Sample.parseInt Sample.parseFloat
              (Fixture.AgeValidator (Fixture.request [("age", VStr "7")] []))
              _ ["age"] eq_refl
              ltac:(repeat constructor; by eexists) eq_refl)
    as (Hmember & _ & Hparams & _ & _ & Hget).
  split; [exact Hmember|]. split; [exact Hparams|].
  by rewrite Hget.
Defined.

(** A valid age: the one discovered member passed. *)
Lemma validate_returns_only_when_all_pass_witness :
  exists this' keys,
    outcome (validate Sample.catalog Sample.to_string Sample.parseInt
               Sample.parseFloat
               (Fixture.AgeValidator (Fixture.request [("age", VStr "7")] [])))
    = Ok this'
    /\ findMembers
         (chain (Fixture.AgeValidator
                   (Fixture.request [("age", VStr "7")] [])))
         (Some (_findMembersFilter
                  (Fixture.AgeValidator
                     (Fixture.request [("age", VStr "7")] []))))
         None None = Ok keys
    /\ forall key, In key keys ->
         exists log,
           verdict Sample.catalog Sample.to_string Sample.parseInt
             Sample.parseFloat
             (set_memberKeys
                (Fixture.AgeValidator
                   (Fixture.request [("age", VStr "7")] [])) keys) key
           = (log, Ok {| check_message := "ok"; success := true |}).
Proof.
  eexists.
  destruct (validate_returns_only_when_all_pass Sample.catalog
              Sample.to_string Sample.parseInt Sample.parseFloat
              (Fixture.AgeValidator (Fixture.request [("age", VStr "7")] []))
              _ (fun xs => ltac:(discriminate)) eq_refl)
    as (keys & Hkeys & Hpass).
  exists keys. split; [reflexivity|]. split; [exact Hkeys|exact Hpass].
Defined.

(** The age fails, then the page, optional with the default 0, throws:
    the error of the page escapes, and the failure of the age is lost. *)
Lemma authoring_error_aborts_validate_witness :
  validate Sample.catalog Sample.to_string Sample.parseInt Sample.parseFloat
    (Cases.ListValidator (Fixture.request [("age", VStr "x")] []))
  = ([Call "isInt" "x" []],
     Throw (Error "ListValidator校验器中page字段没有对可选参数设置默认的参数值！")).
Proof.
  apply (authoring_error_aborts_validate Sample.catalog Sample.to_string
           Sample.parseInt Sample.parseFloat
           (Cases.ListValidator (Fixture.request [("age", VStr "x")] []))
           ["age"] "page" []
           [{| check_message := "age：age must be an integer";
               success := false |}]).
  - intros xs. discriminate.
  - reflexivity.
  - repeat constructor.
  - reflexivity.
Defined.

(** A second [validate] on the instance the first one returned. *)
Lemma validate_is_not_repeatable_witness :
  exists this',
    outcome (validate Sample.catalog Sample.to_string Sample.parseInt
               Sample.parseFloat
               (Fixture.AgeValidator (Fixture.request [("age", VStr "7")] [])))
    = Ok this'
    /\ validate Sample.catalog Sample.to_string Sample.parseInt
         Sample.parseFloat this'
       = ([], Throw (Error "AgeValidator校验器中memberKeys字段的验证数组必须全部为Rule类型")).
Proof.
  eexists. split; [reflexivity|].
  apply (validate_is_not_repeatable Sample.catalog Sample.to_string
           Sample.parseInt Sample.parseFloat
           (Fixture.AgeValidator (Fixture.request [("age", VStr "7")] []))
           _ "age" []).
  - intros xs. discriminate.
  - intros xs. discriminate.
  - discriminate.
  - reflexivity.
  - reflexivity.
Defined.


(** Before [validate], the age of the request is read as it came. *)
Lemma get_before_validate_witness :
  get (Fixture.AgeValidator (Fixture.request [("age", VStr "7")] []))
    "query.age" true = Ok (VStr "7")
  /\ get (Fixture.AgeValidator (Fixture.request [("age", VStr "7")] []))
       "age" true = Ok VUndef.
Proof.
  split.
  - apply (get_before_validate
             (Fixture.AgeValidator (Fixture.request [("age", VStr "7")] []))
             (Fixture.request [("age", VStr "7")] []) "query.age");
      reflexivity.
  - apply (get_before_validate
             (Fixture.AgeValidator (Fixture.request [("age", VStr "7")] []))
             (Fixture.request [("age", VStr "7")] []) "age");
      reflexivity.
Defined.
